(** * Karhunen-Loeve Transform library (klt.hh, klt.cc): a shallow embedding

    The engine of [src/src/klt.cc] is embedded as explicit state passing over
    a record that holds the members of [class KLT].  Single-precision
    arithmetic is kept behind an interface ([Scalars]) on which no algebraic
    law is assumed, so every statement holds for the IEEE operations the
    compiler emits; the interface is instantiated with binary32 (through
    [SpecFloat]) wherever a concrete run is evaluated.  The four LAPACKE
    routines belong to an external library and are a parameter ([Lapack]). *)

From Stdlib Require Import ZArith List Lia String Ascii Bool DecimalString.
From Stdlib Require Import Floats.SpecFloat.
From Stdlib Require DecimalZ DecimalPos.
From stdpp Require Import base list.

Local Open Scope Z_scope.

(** ** Arithmetic interface *)

(** [real] is C++ [float], [cplx] is [std::complex<float>].  Only the
    operations that appear in klt.cc are listed. *)
Class Scalars := {
  real : Type;
  cplx : Type;
  f_zero : real;                       (* 0.0f *)
  f_one : real;                        (* 1.0f *)
  f_lt : real -> real -> bool;         (* a < b *)
  f_mul : real -> real -> real;
  f_div : real -> real -> real;
  c_zero : cplx;                       (* std::complex<float>(0.0f, 0.0f) *)
  c_add : cplx -> cplx -> cplx;
  c_mul : cplx -> cplx -> cplx;
  c_conj : cplx -> cplx;               (* std::conj *)
  c_scale : cplx -> real -> cplx       (* complex *= float *)
}.

#[global] Instance real_inhabited `{Scalars} : Inhabited real := populate f_zero.
#[global] Instance cplx_inhabited `{Scalars} : Inhabited cplx := populate c_zero.

(** [std::max(a, b)] is [(a < b) ? b : a]. *)
Definition std_max `{Scalars} (a b : real) : real := if f_lt a b then b else a.

(** ** Buffers and loops *)

(** A buffer is the list of its elements.  Indices and counts are C [int]s,
    kept in [Z]: signed overflow is undefined behaviour in the source, so
    [int] arithmetic has no wrap-around to write out, and the byte counts,
    which are [size_t], wrap explicitly ([to_size_t]).  An access outside a
    buffer is undefined behaviour as well; here a read yields the inhabitant
    and a write does nothing, and the statements below are made for buffers
    of the allocated sizes ([sized]). *)
Definition rd {A} `{Inhabited A} (buf : list A) (i : Z) : A := buf !!! Z.to_nat i.
Definition wr {A} (buf : list A) (i : Z) (v : A) : list A := <[Z.to_nat i := v]> buf.

(** [memset(buf, 0, cnt * sizeof(T))]: the first [cnt] elements become zero. *)
Definition memset0 {A} (zero : A) (buf : list A) (cnt : Z) : list A :=
  replicate (Nat.min (Z.to_nat cnt) (length buf)) zero ++ drop (Z.to_nat cnt) buf.

(** [for (int i = lo; i < hi; i++) body], for a body that leaves [i] and
    [hi] alone; [trips] is the number of iterations. *)
Fixpoint for_up {St} (body : Z -> St -> St) (i : Z) (trips : nat) (s : St) : St :=
  match trips with
  | O => s
  | S t => for_up body (i + 1) t (body i s)
  end.

Definition for_range {St} (lo hi : Z) (body : Z -> St -> St) (s : St) : St :=
  for_up body lo (Z.to_nat (hi - lo)) s.

(** [for (int i = hi; i > 0; i--) body]. *)
Fixpoint for_down {St} (body : Z -> St -> St) (i : Z) (trips : nat) (s : St) : St :=
  match trips with
  | O => s
  | S t => for_down body (i - 1) t (body i s)
  end.

Definition for_countdown {St} (hi : Z) (body : Z -> St -> St) (s : St) : St :=
  for_down body hi (Z.to_nat hi) s.

(** ** Compile-time configuration (klt.hh) *)

Definition KLT_DEBUG_NONE : Z := 0.
Definition KLT_DEBUG_WIN : Z := 1.
Definition KLT_DEBUG_VERBOSE : Z := 2.
Definition KLT_DEBUG_FINE : Z := 4.

(** The three macros that select what is compiled.  A flag is set when it
    is not zero, as [#if] reads it. *)
Record Build := mkBuild {
  KLT_DEBUG : Z;
  KLT_SUPPORT_WIN : Z;
  KLT_SUPPORT_EVALN : Z
}.

(** klt.hh as it is in the repository. *)
Definition shipped : Build :=
  {| KLT_DEBUG := KLT_DEBUG_NONE; KLT_SUPPORT_WIN := 0; KLT_SUPPORT_EVALN := 0 |}.

Definition flag (z : Z) : bool := negb (z =? 0).

(** [oss << n] for an integer. *)
Definition dec (n : Z) : string := NilZero.string_of_int (Z.to_int n).

(** A C array keeps its extent whatever a callee returns for it. *)
Definition fit {A} (old new : list A) : list A :=
  take (length old) new ++ drop (length new) old.

(** A call either returns or throws [std::runtime_error(what)]. *)
Inductive outcome := Returned | Threw (what : string).

(** lapacke.h *)
Definition LAPACK_COL_MAJOR : Z := 102.

(** ** The object *)

Section Engine.
Context `{Sc : Scalars}.

(** Members of [class KLT] (klt.hh): configuration, public input and output
    buffers, private scratch buffers.  [window], [eval_normalized] and
    [win_buf] exist only when the matching [KLT_SUPPORT_*] flag is set; the
    record keeps them and the code consults them under the flag only. *)
Record KLT := mkKLT {
  in_len : Z;
  window : Z;
  eval_normalized : Z;
  acm_order : Z;
  num_eig : Z;
  in_buf : list cplx;
  win_buf : list real;
  ac_buf : list cplx;
  eval_buf : list real;
  kltc_buf : list cplx;
  kltb_buf : list cplx;
  d_buf : list real;
  e_buf : list real;
  tau_buf : list cplx;
  ib_buf : list Z;
  is_buf : list Z;
  if_buf : list Z
}.

Definition set_in_buf (v : list cplx) (k : KLT) : KLT :=
  mkKLT (in_len k) (window k) (eval_normalized k) (acm_order k) (num_eig k)
        v (win_buf k) (ac_buf k) (eval_buf k) (kltc_buf k) (kltb_buf k)
        (d_buf k) (e_buf k) (tau_buf k) (ib_buf k) (is_buf k) (if_buf k).
Definition set_ac_buf (v : list cplx) (k : KLT) : KLT :=
  mkKLT (in_len k) (window k) (eval_normalized k) (acm_order k) (num_eig k)
        (in_buf k) (win_buf k) v (eval_buf k) (kltc_buf k) (kltb_buf k)
        (d_buf k) (e_buf k) (tau_buf k) (ib_buf k) (is_buf k) (if_buf k).
Definition set_eval_buf (v : list real) (k : KLT) : KLT :=
  mkKLT (in_len k) (window k) (eval_normalized k) (acm_order k) (num_eig k)
        (in_buf k) (win_buf k) (ac_buf k) v (kltc_buf k) (kltb_buf k)
        (d_buf k) (e_buf k) (tau_buf k) (ib_buf k) (is_buf k) (if_buf k).
Definition set_kltc_buf (v : list cplx) (k : KLT) : KLT :=
  mkKLT (in_len k) (window k) (eval_normalized k) (acm_order k) (num_eig k)
        (in_buf k) (win_buf k) (ac_buf k) (eval_buf k) v (kltb_buf k)
        (d_buf k) (e_buf k) (tau_buf k) (ib_buf k) (is_buf k) (if_buf k).
Definition set_kltb_buf (v : list cplx) (k : KLT) : KLT :=
  mkKLT (in_len k) (window k) (eval_normalized k) (acm_order k) (num_eig k)
        (in_buf k) (win_buf k) (ac_buf k) (eval_buf k) (kltc_buf k) v
        (d_buf k) (e_buf k) (tau_buf k) (ib_buf k) (is_buf k) (if_buf k).
Definition set_d_buf (v : list real) (k : KLT) : KLT :=
  mkKLT (in_len k) (window k) (eval_normalized k) (acm_order k) (num_eig k)
        (in_buf k) (win_buf k) (ac_buf k) (eval_buf k) (kltc_buf k) (kltb_buf k)
        v (e_buf k) (tau_buf k) (ib_buf k) (is_buf k) (if_buf k).
Definition set_e_buf (v : list real) (k : KLT) : KLT :=
  mkKLT (in_len k) (window k) (eval_normalized k) (acm_order k) (num_eig k)
        (in_buf k) (win_buf k) (ac_buf k) (eval_buf k) (kltc_buf k) (kltb_buf k)
        (d_buf k) v (tau_buf k) (ib_buf k) (is_buf k) (if_buf k).
Definition set_tau_buf (v : list cplx) (k : KLT) : KLT :=
  mkKLT (in_len k) (window k) (eval_normalized k) (acm_order k) (num_eig k)
        (in_buf k) (win_buf k) (ac_buf k) (eval_buf k) (kltc_buf k) (kltb_buf k)
        (d_buf k) (e_buf k) v (ib_buf k) (is_buf k) (if_buf k).
Definition set_ib_buf (v : list Z) (k : KLT) : KLT :=
  mkKLT (in_len k) (window k) (eval_normalized k) (acm_order k) (num_eig k)
        (in_buf k) (win_buf k) (ac_buf k) (eval_buf k) (kltc_buf k) (kltb_buf k)
        (d_buf k) (e_buf k) (tau_buf k) v (is_buf k) (if_buf k).
Definition set_is_buf (v : list Z) (k : KLT) : KLT :=
  mkKLT (in_len k) (window k) (eval_normalized k) (acm_order k) (num_eig k)
        (in_buf k) (win_buf k) (ac_buf k) (eval_buf k) (kltc_buf k) (kltb_buf k)
        (d_buf k) (e_buf k) (tau_buf k) (ib_buf k) v (if_buf k).
Definition set_if_buf (v : list Z) (k : KLT) : KLT :=
  mkKLT (in_len k) (window k) (eval_normalized k) (acm_order k) (num_eig k)
        (in_buf k) (win_buf k) (ac_buf k) (eval_buf k) (kltc_buf k) (kltb_buf k)
        (d_buf k) (e_buf k) (tau_buf k) (ib_buf k) (is_buf k) v.

(** Element counts requested by the constructor (klt.cc, [KLT::KLT]). *)
Definition ac_size (acm_order : Z) : Z := ((acm_order + 1) * acm_order) / 2.
Definition kltb_size (acm_order num_eig : Z) : Z := acm_order * num_eig.
Definition e_size (acm_order : Z) : Z := acm_order - 1.
Definition tau_size (acm_order : Z) : Z := acm_order - 1.

(** The buffers have the extents the constructor allocated. *)
Record sized (k : KLT) : Prop := mkSized {
  sz_in : length (in_buf k) = Z.to_nat (in_len k);
  sz_win : length (win_buf k) = Z.to_nat (in_len k);
  sz_ac : length (ac_buf k) = Z.to_nat (ac_size (acm_order k));
  sz_eval : length (eval_buf k) = Z.to_nat (acm_order k);
  sz_kltc : length (kltc_buf k) = Z.to_nat (num_eig k);
  sz_kltb : length (kltb_buf k) = Z.to_nat (kltb_size (acm_order k) (num_eig k));
  sz_d : length (d_buf k) = Z.to_nat (acm_order k);
  sz_e : length (e_buf k) = Z.to_nat (e_size (acm_order k));
  sz_tau : length (tau_buf k) = Z.to_nat (tau_size (acm_order k));
  sz_ib : length (ib_buf k) = Z.to_nat (acm_order k);
  sz_is : length (is_buf k) = Z.to_nat (acm_order k);
  sz_if : length (if_buf k) = Z.to_nat (num_eig k)
}.

(** What the header asks of the caller: [num_eig <= acm_order], and the
    driver's clamps [2 <= acm_order <= in_len], [1 <= num_eig]. *)
Definition valid_config (k : KLT) : Prop :=
  2 <= acm_order k <= in_len k /\ 1 <= num_eig k <= acm_order k.

(** ** Auto-correlation matrix (klt.cc, [KLT::acorr_matrix]) *)

(** First loop nest: [ac_buf[aidx]] is cleared and then accumulated in
    place. *)
Definition acorr_lags (in_len acm_order : Z) (in_buf ac_buf : list cplx) : list cplx :=
  for_range 0 acm_order (fun aidx ac_buf =>
    let ac_buf := wr ac_buf aidx c_zero in
    for_range 0 (in_len - aidx) (fun w2idx ac_buf =>
      let w1idx := w2idx + aidx in
      wr ac_buf aidx
         (c_add (rd ac_buf aidx)
                (c_mul (rd in_buf w1idx) (c_conj (rd in_buf w2idx)))))
      ac_buf)
    ac_buf.

(** Second loop nest: the running output index [aoidx] starts at
    [acm_order] and is post-incremented by every store. *)
Definition toeplitz_fill (acm_order : Z) (ac_buf : list cplx) : list cplx :=
  snd (for_countdown (acm_order - 1) (fun col_len st =>
         for_range 0 col_len (fun aiidx '(aoidx, ac_buf) =>
           (aoidx + 1, wr ac_buf aoidx (rd ac_buf aiidx))) st)
         (acm_order, ac_buf)).

Definition acorr_matrix (k : KLT) : KLT :=
  set_ac_buf
    (toeplitz_fill (acm_order k)
       (acorr_lags (in_len k) (acm_order k) (in_buf k) (ac_buf k))) k.

(** The estimator in the words of the specification: for lag [a], the sum
    over [t] in [[0, inputLength - a)] of [input[t+a] * conj(input[t])],
    terms taken in increasing [t], nothing divided, nothing tapered. *)
Fixpoint sum_below (term : nat -> cplx) (n : nat) : cplx :=
  match n with
  | O => c_zero
  | S m => c_add (sum_below term m) (term m)
  end.

Definition lag_term (input : list cplx) (a : Z) (t : nat) : cplx :=
  c_mul (rd input (Z.of_nat t + a)) (c_conj (rd input (Z.of_nat t))).

Definition lag_sum (inputLength : Z) (input : list cplx) (a : Z) : cplx :=
  sum_below (lag_term input a) (Z.to_nat (inputLength - a)).

(** Packed storage of a lower triangle by columns, as LAPACK documents it
    for [uplo = 'L'] (0-based): entry (row, col), [col <= row < n], is at
    [row + col * (2n - col - 1) / 2]. *)
Definition packed_index (n row col : Z) : Z := row + (col * (2 * n - col - 1)) / 2.

(** Offset of packed column [c]: the columns before it hold [n], [n - 1],
    ... entries. *)
Fixpoint colstart (n : Z) (c : nat) : Z :=
  match c with
  | O => 0
  | S c' => colstart n c' + (n - Z.of_nat c')
  end.

(** ** The external eigensolver *)

(** The four LAPACKE routines klt.cc calls.  Each takes the scalar arguments
    and the contents of the arrays it is handed, and returns [info] together
    with the contents of the arrays it may write (the non-[const] pointer
    arguments of lapacke.h); [LAPACKE_sstebz] also returns [m] and [nsplit],
    which the caller passes uninitialised. *)
Record Lapack := mkLapack {
  LAPACKE_chptrd :
    Z -> ascii -> Z -> list cplx -> list real -> list real -> list cplx ->
    Z * (list cplx * list real * list real * list cplx);
  LAPACKE_sstebz :
    ascii -> ascii -> Z -> real -> real -> Z -> Z -> real ->
    list real -> list real -> list real -> list Z -> list Z ->
    Z * (Z * Z * list real * list Z * list Z);
  LAPACKE_cstein :
    Z -> Z -> list real -> list real -> Z -> list real -> list Z -> list Z ->
    list cplx -> Z -> list Z ->
    Z * (list cplx * list Z);
  LAPACKE_cupmtr :
    Z -> ascii -> ascii -> ascii -> Z -> Z -> list cplx -> list cplx ->
    list cplx -> Z ->
    Z * list cplx
}.

(** What the program does that is visible outside the object: the calls
    into the eigensolver with their scalar arguments, and the WARNING lines
    of the [KLT_DEBUG_FINE] block of [eigendecomp].  (The other debug output,
    dumps of buffer contents, is not part of the model.) *)
Inductive event :=
  | Ev_chptrd (matrix_layout : Z) (uplo : ascii) (n : Z)
  | Ev_sstebz (range order : ascii) (n : Z) (vl vu : real) (il iu : Z) (abstol : real)
  | Ev_cstein (matrix_layout n m ldz : Z)
  | Ev_cupmtr (matrix_layout : Z) (side uplo trans : ascii) (m n ldc : Z)
  | Ev_warning (line : string).

(** ** Eigendecomposition (klt.cc, [KLT::eigendecomp]) *)

Definition major_order : Z := LAPACK_COL_MAJOR.
Definition uplo : ascii := "L"%char.
Definition range : ascii := "I"%char.
Definition order : ascii := "B"%char.
Definition vl : real := f_zero.
Definition vu : real := f_zero.
Definition abstol : real := f_zero.
Definition side : ascii := "L"%char.
Definition trans : ascii := "N"%char.

(** The two [memset]s of every failure branch. *)
Definition zero_outputs (k : KLT) : KLT :=
  let k := set_eval_buf (memset0 f_zero (eval_buf k) (num_eig k)) k in
  set_kltb_buf (memset0 c_zero (kltb_buf k) (num_eig k * acm_order k)) k.

Definition call_chptrd (L : Lapack) (k : KLT) : Z * KLT :=
  let '(info, (ap, d, e, tau)) :=
    LAPACKE_chptrd L major_order uplo (acm_order k)
                   (ac_buf k) (d_buf k) (e_buf k) (tau_buf k) in
  (info,
   set_tau_buf (fit (tau_buf k) tau)
     (set_e_buf (fit (e_buf k) e)
        (set_d_buf (fit (d_buf k) d)
           (set_ac_buf (fit (ac_buf k) ap) k)))).

Definition il_of (k : KLT) : Z := acm_order k - num_eig k + 1.
Definition iu_of (k : KLT) : Z := acm_order k.

Definition call_sstebz (L : Lapack) (k : KLT) : Z * Z * Z * KLT :=
  let '(info, (num_eig_found, nsplit, w, iblock, isplit)) :=
    LAPACKE_sstebz L range order (acm_order k) vl vu (il_of k) (iu_of k) abstol
                   (d_buf k) (e_buf k) (eval_buf k) (ib_buf k) (is_buf k) in
  (info, num_eig_found, nsplit,
   set_is_buf (fit (is_buf k) isplit)
     (set_ib_buf (fit (ib_buf k) iblock)
        (set_eval_buf (fit (eval_buf k) w) k))).

Definition call_cstein (L : Lapack) (num_eig_found : Z) (k : KLT) : Z * KLT :=
  let '(info, (z, ifailv)) :=
    LAPACKE_cstein L major_order (acm_order k) (d_buf k) (e_buf k)
                   num_eig_found (eval_buf k) (ib_buf k) (is_buf k)
                   (kltb_buf k) (acm_order k) (if_buf k) in
  (info, set_if_buf (fit (if_buf k) ifailv) (set_kltb_buf (fit (kltb_buf k) z) k)).

Definition call_cupmtr (L : Lapack) (num_eig_found : Z) (k : KLT) : Z * KLT :=
  let '(info, c) :=
    LAPACKE_cupmtr L major_order side uplo trans (acm_order k) num_eig_found
                   (ac_buf k) (tau_buf k) (kltb_buf k) (acm_order k) in
  (info, set_kltb_buf (fit (kltb_buf k) c) k).

(** The block under [#if KLT_DEBUG & KLT_DEBUG_FINE] that follows the call
    of [LAPACKE_sstebz]. *)
Definition fine_warnings (b : Build) (k : KLT) (nsplit num_eig_found : Z) : list event :=
  if flag (Z.land (KLT_DEBUG b) KLT_DEBUG_FINE) then
    (if negb (nsplit =? 1)
     then [Ev_warning (" WARNING: nsplit=" ++ dec nsplit)] else []) ++
    (if negb (num_eig_found =? num_eig k)
     then [Ev_warning (" WARNING: num_eig_found=" ++ dec num_eig_found)] else [])
  else [].

Definition failed (routine : string) (info : Z) : outcome :=
  Threw (routine ++ " failed, info=" ++ dec info).

Definition eigendecomp (b : Build) (L : Lapack) (k : KLT) : outcome * KLT * list event :=
  let '(info, k) := call_chptrd L k in
  let ev := [Ev_chptrd major_order uplo (acm_order k)] in
  if flag info then
    (failed "LAPACKE_chptrd()" info, zero_outputs k, ev)
  else
    let il := il_of k in
    let iu := iu_of k in
    let '(info, num_eig_found, nsplit, k) := call_sstebz L k in
    let ev := ev ++ [Ev_sstebz range order (acm_order k) vl vu il iu abstol]
                 ++ fine_warnings b k nsplit num_eig_found in
    if flag info then
      (failed "LAPACKE_sstebz()" info, zero_outputs k, ev)
    else
      let '(info, k) := call_cstein L num_eig_found k in
      let ev := ev ++ [Ev_cstein major_order (acm_order k) num_eig_found (acm_order k)] in
      if flag info then
        (failed "LAPACKE_cstein()" info, zero_outputs k, ev)
      else
        let '(info, k) := call_cupmtr L num_eig_found k in
        let ev := ev ++ [Ev_cupmtr major_order side uplo trans
                                   (acm_order k) num_eig_found (acm_order k)] in
        if flag info then
          (failed "LAPACKE_cupmtr()" info, zero_outputs k, ev)
        else
          (Returned, k, ev).

(** ** Window (klt.cc, under [KLT_SUPPORT_WIN]) *)

(** [apply_window]: [in_buf[widx] *= win_buf[widx]].  [win_buf] is filled
    once by [init_window] in the constructor and read-only afterwards. *)
Definition apply_window (k : KLT) : KLT :=
  set_in_buf
    (for_range 0 (in_len k) (fun widx in_buf =>
       wr in_buf widx (c_scale (rd in_buf widx) (rd (win_buf k) widx)))
       (in_buf k)) k.

(** ** Transform (klt.cc, [KLT::transform]) *)

(** The block under [KLT_SUPPORT_EVALN]. *)
Definition max_eval_of (num_eig : Z) (eval_buf : list real) : real :=
  for_range 0 num_eig (fun eidx max_eval => std_max (rd eval_buf eidx) max_eval) f_zero.

Definition normalize_evals (k : KLT) : KLT :=
  let max_eval := max_eval_of (num_eig k) (eval_buf k) in
  let inv_max_eval := f_div f_one max_eval in
  set_eval_buf
    (for_range 0 (num_eig k) (fun eidx eval_buf =>
       wr eval_buf eidx (f_mul (rd eval_buf eidx) inv_max_eval))
       (eval_buf k)) k.

(** Compute KLT coeffs. *)
Definition klt_coeffs (num_eig acm_order : Z) (in_buf kltb_buf kltc_buf : list cplx)
  : list cplx :=
  for_range 0 num_eig (fun cidx kltc_buf =>
    let kltc_buf := wr kltc_buf cidx c_zero in
    for_range 0 acm_order (fun tidx kltc_buf =>
      wr kltc_buf cidx
         (c_add (rd kltc_buf cidx)
                (c_mul (rd in_buf tidx)
                       (c_conj (rd kltb_buf (cidx * acm_order + tidx))))))
      kltc_buf)
    kltc_buf.

(** Apply coeffs to KLT basis functions. *)
Definition apply_coeffs (num_eig acm_order : Z) (kltc_buf kltb_buf : list cplx)
  : list cplx :=
  for_range 0 num_eig (fun cidx kltb_buf =>
    for_range 0 acm_order (fun tidx kltb_buf =>
      wr kltb_buf (cidx * acm_order + tidx)
         (c_mul (rd kltb_buf (cidx * acm_order + tidx)) (rd kltc_buf cidx)))
      kltb_buf)
    kltb_buf.

Definition project (k : KLT) : KLT :=
  let k := set_kltc_buf
             (klt_coeffs (num_eig k) (acm_order k) (in_buf k) (kltb_buf k) (kltc_buf k)) k in
  set_kltb_buf (apply_coeffs (num_eig k) (acm_order k) (kltc_buf k) (kltb_buf k)) k.

(** The state in which [eigendecomp] is entered. *)
Definition before_eigendecomp (b : Build) (k : KLT) : KLT :=
  let k := if flag (KLT_SUPPORT_WIN b) && flag (window k) then apply_window k else k in
  acorr_matrix k.

(** An exception thrown by [eigendecomp] passes through [transform]; the
    object keeps the state it had at the [throw]. *)
Definition transform (b : Build) (L : Lapack) (k : KLT) : outcome * KLT * list event :=
  let k := before_eigendecomp b k in
  match eigendecomp b L k with
  | (Threw what, k, ev) => (Threw what, k, ev)
  | (Returned, k, ev) =>
      let k := if flag (KLT_SUPPORT_EVALN b) && flag (eval_normalized k)
               then normalize_evals k else k in
      (Returned, project k, ev)
  end.

Definition after_chptrd (L : Lapack) (k : KLT) : KLT := snd (call_chptrd L k).
Definition num_eig_found (L : Lapack) (k : KLT) : Z :=
  snd (fst (fst (call_sstebz L (after_chptrd L k)))).
Definition nsplit (L : Lapack) (k : KLT) : Z :=
  snd (fst (call_sstebz L (after_chptrd L k))).



(** The three parts of what a call leaves behind. *)
Definition outcome_of (r : outcome * KLT * list event) : outcome := fst (fst r).
Definition state_of (r : outcome * KLT * list event) : KLT := snd (fst r).
Definition events_of (r : outcome * KLT * list event) : list event := snd r.

(** The projection in the words of the specification: coefficient [i] is
    the sum over [t] in [[0, acmOrder)] of [input[t] * conj(eigenvector_i[t])],
    eigenvector [i] being column [i] of the column-major basis. *)
Definition eigenvector_entry (acmOrder : Z) (basis : list cplx) (i t : Z) : cplx :=
  rd basis (i * acmOrder + t).

Definition projection_coeff (acmOrder : Z) (input basis : list cplx) (i : Z) : cplx :=
  sum_below (fun t => c_mul (rd input (Z.of_nat t))
                            (c_conj (eigenvector_entry acmOrder basis i (Z.of_nat t))))
            (Z.to_nat acmOrder).

(** The larger of [0.0f] and the given values, taken with [std::max] from
    the first value on. *)
Definition largest_from_zero (values : list real) : real :=
  fold_left (fun largest x => std_max x largest) values f_zero.

(** An object as the constructor leaves it, its memory holding whatever it
    held ([junk_*]), after the caller has stored [input] in [in_buf]. *)
Definition object (in_len window eval_normalized acm_order num_eig : Z)
    (input : list cplx) (win : list real)
    (junk_r : real) (junk_c : cplx) (junk_i : Z) : KLT :=
  mkKLT in_len window eval_normalized acm_order num_eig
        input win
        (replicate (Z.to_nat (ac_size acm_order)) junk_c)
        (replicate (Z.to_nat acm_order) junk_r)
        (replicate (Z.to_nat num_eig) junk_c)
        (replicate (Z.to_nat (kltb_size acm_order num_eig)) junk_c)
        (replicate (Z.to_nat acm_order) junk_r)
        (replicate (Z.to_nat (e_size acm_order)) junk_r)
        (replicate (Z.to_nat (tau_size acm_order)) junk_c)
        (replicate (Z.to_nat acm_order) junk_i)
        (replicate (Z.to_nat acm_order) junk_i)
        (replicate (Z.to_nat num_eig) junk_i).

End Engine.

(** ** Construction and destruction (klt.cc, [KLT::KLT] and [KLT::~KLT]) *)

(** The constructor and the destructor only move memory blocks, so they are
    embedded over a heap of live blocks.  A pointer is a block number,
    [None] is [NULL]. *)
Record heap := mkHeap {
  live : list (nat * Z);      (* block, size in bytes *)
  fresh : nat                 (* next block number *)
}.

Definition ALIGN : Z := 128.
Definition sizeof_complex_float : Z := 8.
Definition sizeof_float : Z := 4.
Definition sizeof_int : Z := 4.

(** Conversion of an [int] to [size_t], and the product of two [size_t]. *)
Definition to_size_t (z : Z) : Z := z mod 2 ^ 64.
Definition bytes_of (count elt : Z) : Z := to_size_t (to_size_t count * elt).

Section Lifecycle.

(** Whether the system grants a request, given the live blocks. *)
Variable grant : list (nat * Z) -> Z -> Z -> bool.

Definition posix_memalign (h : heap) (alignment size : Z) : option nat * heap :=
  if grant (live h) alignment size
  then (Some (fresh h), mkHeap (live h ++ [(fresh h, size)]) (S (fresh h)))
  else (None, h).

Definition free (p : nat) (h : heap) : heap :=
  mkHeap (filter (fun blk => fst blk <> p) (live h)) (fresh h).

(** The pointer members of the object. *)
Record KLT_ptrs := mkPtrs {
  p_in_buf : option nat;
  p_win_buf : option nat;
  p_ac_buf : option nat;
  p_eval_buf : option nat;
  p_kltc_buf : option nat;
  p_kltb_buf : option nat;
  p_d_buf : option nat;
  p_e_buf : option nat;
  p_tau_buf : option nat;
  p_ib_buf : option nat;
  p_is_buf : option nat;
  p_if_buf : option nat
}.

(** A [new]-expression yields the object or lets the exception of the
    constructor through.  The destructor does not run for an object whose
    constructor throws: nothing but the message leaves the constructor. *)
Inductive ctor_result := Constructed (obj : KLT_ptrs) | Ctor_threw (what : string).

(** One [if (posix_memalign(&buf, ALIGN, bytes)) { ... throw ...; }]. *)
Definition alloc_or_throw (h : heap) (bytes : Z) (name : string) (shown : Z)
    (rest : option nat -> heap -> ctor_result * heap) : ctor_result * heap :=
  match posix_memalign h ALIGN bytes with
  | (Some p, h') => rest (Some p) h'
  | (None, h') =>
      (Ctor_threw ("Failed to allocate " ++ name ++ " (size " ++ dec shown ++ ")"), h')
  end.

(** [init_window], which runs last when [window] is set, fills [win_buf]
    and allocates nothing. *)
Definition KLT_new (b : Build) (in_len acm_order num_eig : Z) (h : heap)
  : ctor_result * heap :=
  alloc_or_throw h (bytes_of in_len sizeof_complex_float) "in_buf" in_len
  (fun in_buf h =>
  (if flag (KLT_SUPPORT_WIN b)
   then alloc_or_throw h (bytes_of in_len sizeof_float) "win_buf" in_len
   else fun rest => rest None h)
  (fun win_buf h =>
  let ac_size := to_size_t (((acm_order + 1) * acm_order) / 2) in
  alloc_or_throw h (bytes_of ac_size sizeof_complex_float) "ac_buf" ac_size
  (fun ac_buf h =>
  alloc_or_throw h (bytes_of acm_order sizeof_float) "eval_buf" acm_order
  (fun eval_buf h =>
  alloc_or_throw h (bytes_of num_eig sizeof_complex_float) "kltc_buf" num_eig
  (fun kltc_buf h =>
  let kltb_size := to_size_t (acm_order * num_eig) in
  alloc_or_throw h (bytes_of kltb_size sizeof_complex_float) "kltb_buf" kltb_size
  (fun kltb_buf h =>
  alloc_or_throw h (bytes_of acm_order sizeof_float) "d_buf" acm_order
  (fun d_buf h =>
  let e_size := to_size_t (acm_order - 1) in
  alloc_or_throw h (bytes_of e_size sizeof_float) "e_buf" e_size
  (fun e_buf h =>
  let tau_size := to_size_t (acm_order - 1) in
  alloc_or_throw h (bytes_of tau_size sizeof_complex_float) "tau_buf" tau_size
  (fun tau_buf h =>
  alloc_or_throw h (bytes_of acm_order sizeof_int) "ib_buf" acm_order
  (fun ib_buf h =>
  alloc_or_throw h (bytes_of acm_order sizeof_int) "is_buf" acm_order
  (fun is_buf h =>
  alloc_or_throw h (bytes_of num_eig sizeof_int) "if_buf" num_eig
  (fun if_buf h =>
  (Constructed (mkPtrs in_buf win_buf ac_buf eval_buf kltc_buf kltb_buf
                       d_buf e_buf tau_buf ib_buf is_buf if_buf), h))))))))))))).

(** [if (buf != NULL) free(buf);] *)
Definition free_if_set (p : option nat) (h : heap) : heap :=
  match p with
  | Some blk => free blk h
  | None => h
  end.

Definition KLT_delete (b : Build) (obj : KLT_ptrs) (h : heap) : heap :=
  let h := free_if_set (p_in_buf obj) h in
  let h := if flag (KLT_SUPPORT_WIN b) then free_if_set (p_win_buf obj) h else h in
  let h := free_if_set (p_ac_buf obj) h in
  let h := free_if_set (p_eval_buf obj) h in
  let h := free_if_set (p_kltc_buf obj) h in
  let h := free_if_set (p_kltb_buf obj) h in
  let h := free_if_set (p_d_buf obj) h in
  let h := free_if_set (p_e_buf obj) h in
  let h := free_if_set (p_tau_buf obj) h in
  let h := free_if_set (p_ib_buf obj) h in
  let h := free_if_set (p_is_buf obj) h in
  free_if_set (p_if_buf obj) h.

End Lifecycle.

(** A system with [capacity] bytes to give. *)
Definition grant_within (capacity : Z) (blocks : list (nat * Z)) (alignment size : Z) : bool :=
  fold_right (fun blk acc => snd blk + acc) 0 blocks + size <=? capacity.

Definition empty_heap : heap := mkHeap [] 0.

(** ** What the engine relies on from the eigensolver *)

Section Contract.
Context `{Sc : Scalars}.






End Contract.

(** ** Single precision *)

(** IEEE 754 binary32 (24-bit significand, exponents up to 128) with
    round-to-nearest-even, from [SpecFloat].  A complex number is its real
    and imaginary part; the product is the four-multiplication formula, which
    is what the compiler's complex multiply returns whenever that formula
    does not yield a NaN in both parts. *)
Module B32.

Definition prec : Z := 24.
Definition emax : Z := 128.

Definition add := SFadd prec emax.
Definition sub := SFsub prec emax.
Definition mul := SFmul prec emax.
Definition div := SFdiv prec emax.
Definition zero : spec_float := S754_zero false.
Definition one : spec_float := SFone prec emax.
Definition of_Z (z : Z) : spec_float := binary_normalize prec emax z 0 false.

Definition is_nan (x : spec_float) : bool :=
  match x with
  | S754_nan => true
  | _ => false
  end.

End B32.

#[global] Instance binary32 : Scalars := {|
  real := spec_float;
  cplx := spec_float * spec_float;
  f_zero := B32.zero;
  f_one := B32.one;
  f_lt := SFltb;
  f_mul := B32.mul;
  f_div := B32.div;
  c_zero := (B32.zero, B32.zero);
  c_add := fun x y => (B32.add (fst x) (fst y), B32.add (snd x) (snd y));
  c_mul := fun x y =>
    (B32.sub (B32.mul (fst x) (fst y)) (B32.mul (snd x) (snd y)),
     B32.add (B32.mul (fst x) (snd y)) (B32.mul (snd x) (fst y)));
  c_conj := fun x => (fst x, SFopp (snd x));
  c_scale := fun x w => (B32.mul (fst x) w, B32.mul (snd x) w)
|}.

(** ** A stand-in eigensolver *)

(** Concrete runs need a concrete library.  [stand_in] answers as LAPACK
    does when the packed matrix is a real multiple of the identity: the
    reduction copies the diagonal and has no reflector to apply, every
    diagonal entry is a block of its own, the eigenvalues with indices
    [il..iu] are the diagonal entries, the eigenvector of block [j] is the
    unit vector [j], and the back-transformation changes nothing.  Like
    LAPACKE it refuses a matrix that holds a NaN with [info = -4].
    [found_cap] bounds the number of eigenvalues the search reports, and the
    three [info_*] fields are handed back as the status of the later
    routines. *)
Record stand_in_cfg := mkStandIn {
  found_cap : option Z;
  info_sstebz : Z;
  info_cstein : Z;
  info_cupmtr : Z
}.

Definition healthy : stand_in_cfg := mkStandIn None 0 0 0.

Definition c_is_nan (z : spec_float * spec_float) : bool :=
  B32.is_nan (fst z) || B32.is_nan (snd z).

Definition upto (n : Z) : list Z := map Z.of_nat (seq 0 (Z.to_nat n)).

Definition unit_vector (n j : Z) : list (spec_float * spec_float) :=
  map (fun t => if t =? j then (B32.one, B32.zero) else (B32.zero, B32.zero)) (upto n).

Definition stand_in (cfg : stand_in_cfg) : Lapack (Sc := binary32) := {|
  LAPACKE_chptrd := fun _ _ n ap d e tau =>
    if existsb c_is_nan (take (Z.to_nat (ac_size n)) ap)
    then (-4, (ap, d, e, tau))
    else (0, (ap,
              map (fun j => fst (rd ap (colstart n (Z.to_nat j)))) (upto n),
              replicate (Z.to_nat (n - 1)) B32.zero,
              replicate (Z.to_nat (n - 1)) (B32.zero, B32.zero)));
  LAPACKE_sstebz := fun _ _ n _ _ il iu _ d e w iblock isplit =>
    if flag (info_sstebz cfg)
    then (info_sstebz cfg, (0, 0, w, iblock, isplit))
    else
      let m := match found_cap cfg with
               | Some cap => Z.min (iu - il + 1) cap
               | None => iu - il + 1
               end in
      (0, (m, n,
           map (fun j => rd d (il - 1 + j)) (upto m),
           map (fun j => il + j) (upto m),
           map (fun j => j + 1) (upto n)));
  LAPACKE_cstein := fun _ n d e m w iblock isplit z ldz ifailv =>
    if flag (info_cstein cfg)
    then (info_cstein cfg, (z, ifailv))
    else (0, (concat (map (fun j => unit_vector ldz (rd iblock j - 1)) (upto m)),
              replicate (Z.to_nat m) 0));
  LAPACKE_cupmtr := fun _ _ _ _ m n ap tau c ldc =>
    (info_cupmtr cfg, c)
|}.

(** ** Sample objects *)

(** An engine for windows of eight samples with a 2 x 2 autocorrelation
    matrix.  The sample windows have no energy at lag 1, so that matrix is
    a multiple of the identity, the case in which [stand_in] is exact. *)
Definition re (x : Z) : spec_float * spec_float := (B32.of_Z x, B32.zero).

Definition window_41 : list (spec_float * spec_float) :=
  map re [0; 6; 0; 2; 0; 1; 0; 0].

Definition window_25 : list (spec_float * spec_float) :=
  map re [0; 3; 0; 4; 0; 0; 0; 0].

Definition silence : list (spec_float * spec_float) := replicate 8 (re 0).

(** A window with one sample that is not a number. *)
Definition window_nan : list (spec_float * spec_float) :=
  [re 0; re 6; re 0; (S754_nan, B32.zero); re 0; re 1; re 0; re 0].

(** The object right after construction, every buffer holding [junk], and
    the caller's samples in [in_buf]; the window, which only a build with
    [KLT_SUPPORT_WIN] has and which these runs never apply, is all ones. *)
Definition engine (num_eig eval_normalized junk : Z)
    (input : list (spec_float * spec_float)) : KLT (Sc := binary32) :=
  object 8 0 eval_normalized 2 num_eig input (replicate 8 B32.one)
         (B32.of_Z junk) (re junk) junk.

(** klt.hh with [KLT_SUPPORT_EVALN] set. *)
Definition with_evaln : Build :=
  {| KLT_DEBUG := KLT_DEBUG_NONE; KLT_SUPPORT_WIN := 0; KLT_SUPPORT_EVALN := 1 |}.



(** ** The constructor's requests, as a table *)

(** What [KLT::KLT] asks of [posix_memalign], in the order of the source:
    the buffer's name, the number its message shows, and the bytes. *)
Definition requests (b : Build) (in_len acm_order num_eig : Z) : list (string * Z * Z) :=
  let ac_size := to_size_t (((acm_order + 1) * acm_order) / 2) in
  let kltb_size := to_size_t (acm_order * num_eig) in
  let e_size := to_size_t (acm_order - 1) in
  let tau_size := to_size_t (acm_order - 1) in
  [("in_buf"%string, in_len, bytes_of in_len sizeof_complex_float)] ++
  (if flag (KLT_SUPPORT_WIN b)
   then [("win_buf"%string, in_len, bytes_of in_len sizeof_float)] else []) ++
  [("ac_buf"%string, ac_size, bytes_of ac_size sizeof_complex_float);
   ("eval_buf"%string, acm_order, bytes_of acm_order sizeof_float);
   ("kltc_buf"%string, num_eig, bytes_of num_eig sizeof_complex_float);
   ("kltb_buf"%string, kltb_size, bytes_of kltb_size sizeof_complex_float);
   ("d_buf"%string, acm_order, bytes_of acm_order sizeof_float);
   ("e_buf"%string, e_size, bytes_of e_size sizeof_float);
   ("tau_buf"%string, tau_size, bytes_of tau_size sizeof_complex_float);
   ("ib_buf"%string, acm_order, bytes_of acm_order sizeof_int);
   ("is_buf"%string, acm_order, bytes_of acm_order sizeof_int);
   ("if_buf"%string, num_eig, bytes_of num_eig sizeof_int)].

Definition request_bytes (rq : string * Z * Z) : Z := snd rq.

Definition ctor_message (rq : string * Z * Z) : string :=
  ("Failed to allocate " ++ fst (fst rq) ++ " (size " ++ dec (snd (fst rq)) ++ ")")%string.

(** The blocks [count] grants in a row add to a heap whose next block
    number is [first]. *)
Definition granted_blocks (first : nat) (sizes : list Z) : list (nat * Z) :=
  zip (seq first (length sizes)) sizes.

(** Serving a list of requests in order until one is refused: the pointers
    obtained, the request refused (if any), and the heap left. *)
Fixpoint serve_requests (grant : list (nat * Z) -> Z -> Z -> bool) (h : heap)
    (rqs : list (string * Z * Z)) : list (option nat) * option (string * Z * Z) * heap :=
  match rqs with
  | [] => ([], None, h)
  | rq :: rest =>
      match posix_memalign grant h ALIGN (request_bytes rq) with
      | (Some p, h') =>
          let '(ps, refused, h'') := serve_requests grant h' rest in
          (Some p :: ps, refused, h'')
      | (None, h') => ([], Some rq, h')
      end
  end.

(** The pointers [~KLT] looks at, in its order. *)
Definition pointers (b : Build) (obj : KLT_ptrs) : list (option nat) :=
  [p_in_buf obj] ++
  (if flag (KLT_SUPPORT_WIN b) then [p_win_buf obj] else []) ++
  [p_ac_buf obj; p_eval_buf obj; p_kltc_buf obj; p_kltb_buf obj; p_d_buf obj;
   p_e_buf obj; p_tau_buf obj; p_ib_buf obj; p_is_buf obj; p_if_buf obj].

(** Block numbers in use lie below the next one to be handed out. *)
Definition heap_ok (h : heap) : Prop :=
  Forall (fun blk => (fst blk < fresh h)%nat) (live h).

(** ** The calls of [eigendecomp], by routine *)

Section Calls.
Context `{Sc : Scalars}.

(** The routines in the order of the source. *)
Definition routines : list string :=
  ["LAPACKE_chptrd()"; "LAPACKE_sstebz()"; "LAPACKE_cstein()"; "LAPACKE_cupmtr()"]%string.





End Calls.

(** ** The driver's arguments (test/klt.cc, [mainroutine]) *)

(** [std::max] and [std::min] on [int]: [(a < b) ? b : a] and
    [(b < a) ? b : a]. *)
Definition int_max (a b : Z) : Z := if a <? b then b else a.
Definition int_min (a b : Z) : Z := if b <? a then b else a.

(** The three integer arguments as [mainroutine] clamps them; [picked_*]
    is what [m_lpick] returns. *)
Definition driver_in_len (picked_in_len : Z) : Z := int_max picked_in_len 2.
Definition driver_acm_order (picked_in_len picked_acm_order : Z) : Z :=
  int_max (int_min picked_acm_order (driver_in_len picked_in_len)) 2.
Definition driver_num_eig (picked_in_len picked_acm_order picked_num_eig : Z) : Z :=
  int_max (int_min picked_num_eig (driver_acm_order picked_in_len picked_acm_order)) 1.

(** ** More samples *)

(** klt.hh with [KLT_SUPPORT_WIN] set. *)
Definition with_window : Build :=
  {| KLT_DEBUG := KLT_DEBUG_NONE; KLT_SUPPORT_WIN := 1; KLT_SUPPORT_EVALN := 0 |}.

(** An object with [window] set and every weight 2. *)
Definition windowed_engine : KLT (Sc := binary32) :=
  object 8 1 0 2 1 window_41 (replicate 8 (B32.of_Z 2)) (B32.of_Z 7) (re 7) 7.

(** An object whose input is shorter than its matrix order. *)
Definition one_sample : KLT (Sc := binary32) :=
  object 1 0 0 2 1 [re 3] [B32.one] (B32.of_Z 7) (re 7) 7.

(** * Properties *)

(** ** Proof steps shared by the sections below *)

(** Projections of updated objects. *)
Ltac klt_simpl :=
  cbn beta iota zeta delta
    [fst snd outcome_of state_of events_of zero_outputs
     set_in_buf set_ac_buf set_eval_buf set_kltc_buf set_kltb_buf set_d_buf
     set_e_buf set_tau_buf set_ib_buf set_is_buf set_if_buf
     in_len window eval_normalized acm_order num_eig in_buf win_buf ac_buf
     eval_buf kltc_buf kltb_buf d_buf e_buf tau_buf ib_buf is_buf if_buf].

(** Case analysis over the four calls and their status tests. *)
Ltac eigen_cases :=
  unfold eigendecomp, call_chptrd, call_sstebz, call_cstein, call_cupmtr;
  repeat first
    [ match goal with
      | |- context [LAPACKE_chptrd ?L ?a ?b ?c ?d ?e ?f ?g] =>
          destruct (LAPACKE_chptrd L a b c d e f g) as [? [[[? ?] ?] ?]]
      | |- context [LAPACKE_sstebz ?L ?a ?b ?c ?d ?e ?f ?g ?h ?i ?j ?k ?l ?m] =>
          destruct (LAPACKE_sstebz L a b c d e f g h i j k l m) as [? [[[[? ?] ?] ?] ?]]
      | |- context [LAPACKE_cstein ?L ?a ?b ?c ?d ?e ?f ?g ?h ?i ?j ?k] =>
          destruct (LAPACKE_cstein L a b c d e f g h i j k) as [? [? ?]]
      | |- context [LAPACKE_cupmtr ?L ?a ?b ?c ?d ?e ?f ?g ?h ?i ?j] =>
          destruct (LAPACKE_cupmtr L a b c d e f g h i j) as [? ?]
      | |- context [if flag ?i then _ else _] => destruct (flag i) eqn:?
      end
    | progress klt_simpl ].

(** ** Loops and buffers *)

Lemma for_up_snoc {St} (body : Z -> St -> St) (i : Z) (t : nat) (s : St) :
  for_up body i (S t) s = body (i + Z.of_nat t) (for_up body i t s).
Proof.
  revert i s. induction t as [|t IH]; intros i s.
  - simpl. f_equal. lia.
  - change (for_up body i (S (S t)) s) with (for_up body (i + 1) (S t) (body i s)).
    rewrite IH. simpl. f_equal. lia.
Qed.

Lemma for_down_snoc {St} (body : Z -> St -> St) (i : Z) (t : nat) (s : St) :
  for_down body i (S t) s = body (i - Z.of_nat t) (for_down body i t s).
Proof.
  revert i s. induction t as [|t IH]; intros i s.
  - simpl. f_equal. lia.
  - change (for_down body i (S (S t)) s) with (for_down body (i - 1) (S t) (body i s)).
    rewrite IH. simpl. f_equal. lia.
Qed.

(** A loop keeps whatever each iteration keeps. *)
Lemma for_up_preserves {St} (P : St -> Prop) (body : Z -> St -> St) i t s :
  (forall j s', P s' -> P (body j s')) -> P s -> P (for_up body i t s).
Proof.
  intros Hb. revert i s. induction t as [|t IH]; intros i s Hs; simpl; auto.
Qed.

Lemma length_wr {A} (buf : list A) i v : length (wr buf i v) = length buf.
Proof. apply length_insert. Qed.

Lemma rd_wr_eq {A} `{Inhabited A} (buf : list A) i v :
  (Z.to_nat i < length buf)%nat -> rd (wr buf i v) i = v.
Proof. intros Hi. unfold rd, wr. by apply list_lookup_total_insert_eq. Qed.

Lemma wr_wr {A} (buf : list A) i v w : wr (wr buf i v) i w = wr buf i w.
Proof. unfold wr. apply list_insert_insert_eq. Qed.

Lemma length_fit {A} (old new : list A) : length (fit old new) = length old.
Proof. unfold fit. rewrite length_app, length_take, length_drop. lia. Qed.

Lemma length_memset0 {A} (zero : A) buf cnt : length (memset0 zero buf cnt) = length buf.
Proof. unfold memset0. rewrite length_app, length_replicate, length_drop. lia. Qed.

Lemma lookup_memset0_lt {A} (zero : A) buf cnt (i : nat) :
  (i < Z.to_nat cnt)%nat -> (i < length buf)%nat ->
  memset0 zero buf cnt !! i = Some zero.
Proof.
  intros Hc Hl. unfold memset0.
  rewrite lookup_app_l by (rewrite length_replicate; lia).
  apply lookup_replicate_2. lia.
Qed.

Section AcorrFacts.
Context `{Sc : Scalars}.

(** The inner loop of the first nest accumulates into one cell. *)
Lemma accumulate_in_place (buf : list cplx) (a : Z) (term : Z -> cplx) (n : nat) :
  (Z.to_nat a < length buf)%nat ->
  for_up (fun t b => wr b a (c_add (rd b a) (term t))) 0 n (wr buf a c_zero)
  = wr buf a (sum_below (fun t => term (Z.of_nat t)) n).
Proof.
  intros Ha. induction n as [|n IH].
  - reflexivity.
  - rewrite for_up_snoc, IH. rewrite rd_wr_eq by exact Ha.
    rewrite wr_wr. reflexivity.
Qed.

Lemma acorr_lags_row (in_len : Z) (input buf : list cplx) (a : Z) :
  (Z.to_nat a < length buf)%nat ->
  (let ac_buf := wr buf a c_zero in
   for_range 0 (in_len - a) (fun w2idx ac_buf =>
      let w1idx := w2idx + a in
      wr ac_buf a (c_add (rd ac_buf a)
                         (c_mul (rd input w1idx) (c_conj (rd input w2idx)))))
      ac_buf)
  = wr buf a (lag_sum in_len input a).
Proof.
  intros Ha. cbv zeta. unfold for_range.
  rewrite (accumulate_in_place buf a
             (fun t => c_mul (rd input (t + a)) (c_conj (rd input t)))) by exact Ha.
  unfold lag_sum, lag_term. replace (in_len - a - 0) with (in_len - a) by lia.
  reflexivity.
Qed.

(** The first loop nest leaves lag [a] at position [a], for every lag
    below the trip count, and nothing else changed. *)
Lemma acorr_lags_upto (in_len : Z) (input buf : list cplx) (m : nat) :
  (m <= length buf)%nat ->
  let r := for_up (fun aidx ac_buf =>
             let ac_buf := wr ac_buf aidx c_zero in
             for_range 0 (in_len - aidx) (fun w2idx ac_buf =>
               let w1idx := w2idx + aidx in
               wr ac_buf aidx
                  (c_add (rd ac_buf aidx)
                         (c_mul (rd input w1idx) (c_conj (rd input w2idx)))))
               ac_buf) 0 m buf in
  length r = length buf /\
  (forall a : nat, (a < m)%nat -> r !! a = Some (lag_sum in_len input (Z.of_nat a))) /\
  (forall p : nat, (m <= p)%nat -> r !! p = buf !! p).
Proof.
  induction m as [|m IH]; intros Hm r.
  - subst r. simpl. split; [done|]. split; [intros; lia | done].
  - subst r. rewrite for_up_snoc.
    destruct IH as (Hlen & Hlow & Hhigh); [lia|].
    set (r := for_up _ 0 m buf) in *.
    replace (0 + Z.of_nat m) with (Z.of_nat m) by lia.
    rewrite (acorr_lags_row in_len input r (Z.of_nat m)) by lia.
    unfold wr. rewrite Nat2Z.id. split; [|split].
    + rewrite length_insert. exact Hlen.
    + intros a Ha. destruct (decide (a = m)) as [->|Hne].
      * apply list_lookup_insert_eq. lia.
      * rewrite list_lookup_insert_ne by congruence. apply Hlow. lia.
    + intros p Hp. rewrite list_lookup_insert_ne by lia. apply Hhigh. lia.
Qed.

Lemma colstart_closed (n : Z) (c : nat) :
  2 * colstart n c = Z.of_nat c * (2 * n - Z.of_nat c + 1).
Proof. induction c as [|c IH]; simpl colstart; nia. Qed.

Lemma colstart_step (n : Z) (c : nat) :
  colstart n (S c) = colstart n c + (n - Z.of_nat c).
Proof. reflexivity. Qed.

Lemma colstart_mono (n : Z) (c c' : nat) :
  (c <= c')%nat -> Z.of_nat c' <= n -> colstart n c <= colstart n c'.
Proof.
  intros Hc Hn. induction c' as [|c' IH].
  - assert (c = O) by lia. subst. lia.
  - destruct (decide (c = S c')) as [->|Hne]; [lia|].
    rewrite colstart_step. assert (colstart n c <= colstart n c') by (apply IH; lia). lia.
Qed.

Lemma colstart_nonneg (n : Z) (c : nat) : Z.of_nat c <= n -> 0 <= colstart n c.
Proof. intros Hn. apply (colstart_mono n 0 c); [lia | exact Hn]. Qed.

Lemma colstart_full (n : Z) : 0 <= n -> colstart n (Z.to_nat n) = ac_size n.
Proof.
  intros Hn. unfold ac_size.
  pose proof (colstart_closed n (Z.to_nat n)) as Hc.
  rewrite Z2Nat.id in Hc by lia.
  apply Z.div_unique_exact; [lia|]. lia.
Qed.

Lemma colstart_packed (n : Z) (c : nat) (row : Z) :
  colstart n c + (row - Z.of_nat c) = packed_index n row (Z.of_nat c).
Proof.
  unfold packed_index. pose proof (colstart_closed n c) as Hc.
  assert (Z.of_nat c * (2 * n - Z.of_nat c - 1) = 2 * (colstart n c - Z.of_nat c)) as -> by lia.
  rewrite Z.mul_comm, Z.div_mul by lia. lia.
Qed.

(** One packed column: [len] stores through the running index [ao], each a
    copy of an entry the run does not reach. *)
Lemma copy_run (buf : list cplx) (ao : Z) (len : nat) :
  0 <= ao -> Z.of_nat len <= ao -> (Z.to_nat ao + len <= length buf)%nat ->
  let r := for_up (fun aiidx '(aoidx, b) => (aoidx + 1, wr b aoidx (rd b aiidx)))
                  0 len (ao, buf) in
  fst r = ao + Z.of_nat len /\ length (snd r) = length buf /\
  (forall p : nat,
      snd r !! p = if decide (Z.to_nat ao <= p < Z.to_nat ao + len)%nat
                   then buf !! (p - Z.to_nat ao)%nat else buf !! p).
Proof.
  intros Hao. induction len as [|len IH]; intros Hle Hfit r.
  - subst r. simpl. repeat split; [lia|]. intros p. case_decide; [lia|done].
  - subst r. rewrite for_up_snoc.
    destruct IH as (Hfst & Hlen & Hlk); [lia|lia|].
    destruct (for_up _ 0 len (ao, buf)) as [ao' b']. simpl in Hfst, Hlen, Hlk. subst ao'.
    simpl. replace (0 + Z.of_nat len) with (Z.of_nat len) by lia.
    split; [lia|]. split; [rewrite length_wr; exact Hlen|].
    assert (b' !! len = buf !! len) as Hsrc.
    { rewrite Hlk. case_decide; [lia|done]. }
    destruct (lookup_lt_is_Some_2 buf len) as [x Hx]; [lia|].
    assert (rd b' (Z.of_nat len) = x) as ->.
    { unfold rd. rewrite Nat2Z.id. apply list_lookup_total_correct. congruence. }
    intros p. unfold wr.
    replace (Z.to_nat (ao + Z.of_nat len)) with (Z.to_nat ao + len)%nat by lia.
    destruct (decide (p = Z.to_nat ao + len)%nat) as [->|Hne].
    + rewrite list_lookup_insert_eq by lia.
      case_decide; [|lia]. replace (Z.to_nat ao + len - Z.to_nat ao)%nat with len by lia.
      done.
    + rewrite list_lookup_insert_ne by lia. rewrite Hlk.
      repeat case_decide; try lia; done.
Qed.

(** After [t] columns of the second loop nest, packed columns [0..t] all
    hold the leading part of column 0. *)
Lemma toeplitz_upto (n : Z) (buf : list cplx) (t : nat) :
  1 <= n -> Z.of_nat t <= n - 1 -> length buf = Z.to_nat (ac_size n) ->
  let r := for_down (fun col_len st =>
             for_range 0 col_len (fun aiidx '(aoidx, ac_buf) =>
               (aoidx + 1, wr ac_buf aoidx (rd ac_buf aiidx))) st)
             (n - 1) t (n, buf) in
  fst r = colstart n (S t) /\ length (snd r) = length buf /\
  (forall (c q : nat), (c <= t)%nat -> Z.of_nat q < n - Z.of_nat c ->
      snd r !! Z.to_nat (colstart n c + Z.of_nat q) = buf !! q).
Proof.
  intros Hn. induction t as [|t IH]; intros Ht Hsz r.
  - subst r. simpl. split; [lia|]. split; [done|].
    intros c q Hc Hq. assert (c = O) by lia. subst c.
    replace (Z.to_nat (colstart n 0 + Z.of_nat q)) with q by (simpl; lia). done.
  - subst r. rewrite for_down_snoc.
    destruct IH as (Hfst & Hlen & Hcols); [lia|done|].
    destruct (for_down _ (n - 1) t (n, buf)) as [ao b']. cbn [fst snd] in Hfst, Hlen, Hcols.
    unfold for_range.
    pose proof (colstart_nonneg n (S t)) as Hnn.
    pose proof (colstart_mono n 1 (S t)) as Hone. simpl colstart at 1 in Hone.
    pose proof (colstart_mono n (S (S t)) (Z.to_nat n)) as Hend.
    rewrite colstart_full in Hend by lia. rewrite (colstart_step n (S t)) in Hend.
    destruct (copy_run b' ao (Z.to_nat (n - 1 - Z.of_nat t - 0))) as (Hf & Hl & Hk);
      [lia|lia|lia|].
    split; [|split].
    + rewrite Hf, (colstart_step n (S t)). lia.
    + rewrite Hl. exact Hlen.
    + intros c q Hc Hq. rewrite Hk.
      destruct (decide (c = S t)) as [->|Hne].
      * case_decide; [|lia].
        replace (Z.to_nat (colstart n (S t) + Z.of_nat q) - Z.to_nat ao)%nat with q by lia.
        rewrite <- (Hcols O q) by lia.
        replace (Z.to_nat (colstart n 0 + Z.of_nat q)) with q by (simpl; lia). done.
      * pose proof (colstart_mono n (S c) (S t)) as Hm.
        rewrite (colstart_step n c) in Hm.
        case_decide; [lia|]. apply Hcols; lia.
Qed.

Lemma ac_size_ge (n : Z) : 1 <= n -> n <= ac_size n.
Proof. intros Hn. unfold ac_size. apply Z.div_le_lower_bound; nia. Qed.

(** Both loop nests together, read through the packed column offsets. *)
Lemma acorr_matrix_columns (k : KLT) (c q : nat) :
  length (ac_buf k) = Z.to_nat (ac_size (acm_order k)) ->
  Z.of_nat c < acm_order k -> Z.of_nat q < acm_order k - Z.of_nat c ->
  ac_buf (acorr_matrix k) !! Z.to_nat (colstart (acm_order k) c + Z.of_nat q)
  = Some (lag_sum (in_len k) (in_buf k) (Z.of_nat q)).
Proof.
  intros Hsz Hc Hq. set (n := acm_order k) in *.
  assert (1 <= n) as Hn by lia. pose proof (ac_size_ge n Hn) as Hge.
  destruct (acorr_lags_upto (in_len k) (in_buf k) (ac_buf k) (Z.to_nat (n - 0)))
    as (Hlen & Hlow & _); [lia|].
  unfold acorr_matrix, toeplitz_fill, for_countdown. cbn [ac_buf set_ac_buf]. fold n.
  destruct (toeplitz_upto n (acorr_lags (in_len k) n (in_buf k) (ac_buf k))
                          (Z.to_nat (n - 1))) as (_ & _ & Hcols); [lia|lia| |].
  { rewrite <- Hsz. exact Hlen. }
  rewrite Hcols by lia. apply Hlow. lia.
Qed.

(** C2. For every lag [a] in [[0, acmOrder)], the autocorrelation buffer
    holds at position [a], when [acorr_matrix] returns, exactly the sum over
    [t] in [[0, inputLength - a)] of [input[t+a] * conj(input[t])]: the plain
    accumulation from zero, not divided by a sample count and not tapered. *)
Theorem acorr_matrix_lag_sum (k : KLT) (a : Z) :
  length (ac_buf k) = Z.to_nat (ac_size (acm_order k)) ->
  0 <= a < acm_order k ->
  ac_buf (acorr_matrix k) !! Z.to_nat a
  = Some (lag_sum (in_len k) (in_buf k) a).
Proof.
  intros Hsz Ha.
  pose proof (acorr_matrix_columns k O (Z.to_nat a) Hsz) as H.
  rewrite Z2Nat.id in H by lia. simpl colstart in H.
  replace (Z.to_nat (0 + a)) with (Z.to_nat a) in H by lia.
  apply H; lia.
Qed.

(** C5. In the packed lower-triangular column-major buffer left by
    [acorr_matrix], the entry of column [i] and row [j], [i <= j], is the
    lag-[(j - i)] autocorrelation value whichever column holds it; said
    otherwise, packed column [i] repeats the first [acmOrder - i] entries of
    the first column. *)
Theorem toeplitz_packed_entry (k : KLT) (i j : Z) :
  length (ac_buf k) = Z.to_nat (ac_size (acm_order k)) ->
  0 <= i -> i <= j -> j < acm_order k ->
  ac_buf (acorr_matrix k) !! Z.to_nat (packed_index (acm_order k) j i)
  = Some (lag_sum (in_len k) (in_buf k) (j - i))
  /\ ac_buf (acorr_matrix k) !! Z.to_nat (packed_index (acm_order k) j i)
     = ac_buf (acorr_matrix k) !! Z.to_nat (j - i).
Proof.
  intros Hsz Hi Hij Hj.
  pose proof (acorr_matrix_columns k (Z.to_nat i) (Z.to_nat (j - i)) Hsz) as H.
  pose proof (colstart_packed (acm_order k) (Z.to_nat i) j) as Hp.
  rewrite !Z2Nat.id in H by lia. rewrite Z2Nat.id in Hp by lia.
  rewrite Hp in H. split.
  - apply H; lia.
  - rewrite H by lia. symmetry.
    pose proof (acorr_matrix_columns k O (Z.to_nat (j - i)) Hsz) as H0.
    rewrite Z2Nat.id in H0 by lia. simpl colstart in H0.
    replace (Z.to_nat (0 + (j - i))) with (Z.to_nat (j - i)) in H0 by lia.
    apply H0; lia.
Qed.

End AcorrFacts.

(** ** Eigendecomposition *)

Section EigenFacts.
Context `{Sc : Scalars}.

(** [eigendecomp] leaves the configuration, the input, the window and the
    coefficients alone, whether it returns or throws. *)
Lemma eigendecomp_keeps (b : Build) (L : Lapack) (k : KLT) :
  let k' := state_of (eigendecomp b L k) in
  in_len k' = in_len k /\ window k' = window k /\
  eval_normalized k' = eval_normalized k /\
  acm_order k' = acm_order k /\ num_eig k' = num_eig k /\
  in_buf k' = in_buf k /\ win_buf k' = win_buf k /\ kltc_buf k' = kltc_buf k.
Proof. eigen_cases; repeat split. Qed.

Lemma eigendecomp_sized (b : Build) (L : Lapack) (k : KLT) :
  sized k -> sized (state_of (eigendecomp b L k)).
Proof.
  intros [].
  eigen_cases; constructor; klt_simpl;
    rewrite ?length_memset0, ?length_fit; assumption.
Qed.

(** Every failure branch has cleared the eigenvalues and the basis; no
    branch stores into the coefficients ([eigendecomp_keeps]). *)
Lemma eigendecomp_threw_zeroes (b : Build) (L : Lapack) (k : KLT) (what : string) :
  outcome_of (eigendecomp b L k) = Threw what ->
  let k' := state_of (eigendecomp b L k) in
  (forall i : nat, (i < Z.to_nat (num_eig k))%nat -> (i < length (eval_buf k))%nat ->
      eval_buf k' !! i = Some f_zero) /\
  (forall i : nat, (i < Z.to_nat (num_eig k * acm_order k))%nat ->
      (i < length (kltb_buf k))%nat -> kltb_buf k' !! i = Some c_zero).
Proof.
  eigen_cases; intros Hthrew; try discriminate Hthrew;
    (split; intros i Hi Hl; apply lookup_memset0_lt;
     rewrite ?length_fit; assumption).
Qed.




End EigenFacts.

(** ** Projection and weighting *)

Section ProjectFacts.
Context `{Sc : Scalars}.

Lemma rd_lookup_eq {A} `{Inhabited A} (b1 b2 : list A) (i j : Z) :
  b1 !! Z.to_nat i = b2 !! Z.to_nat j -> rd b1 i = rd b2 j.
Proof. intros E. unfold rd. by rewrite !list_lookup_total_alt, E. Qed.

(** The coefficient loop leaves coefficient [c] at position [c]. *)
Lemma klt_coeffs_upto (n : Z) (input basis buf : list cplx) (m : nat) :
  (m <= length buf)%nat ->
  let r := for_up (fun cidx kltc_buf =>
             let kltc_buf := wr kltc_buf cidx c_zero in
             for_range 0 n (fun tidx kltc_buf =>
               wr kltc_buf cidx
                  (c_add (rd kltc_buf cidx)
                         (c_mul (rd input tidx)
                                (c_conj (rd basis (cidx * n + tidx))))))
               kltc_buf) 0 m buf in
  length r = length buf /\
  (forall c : nat, (c < m)%nat ->
      r !! c = Some (projection_coeff n input basis (Z.of_nat c))) /\
  (forall p : nat, (m <= p)%nat -> r !! p = buf !! p).
Proof.
  induction m as [|m IH]; intros Hm r.
  - subst r. simpl. split; [done|]. split; [intros; lia | done].
  - subst r. rewrite for_up_snoc.
    destruct IH as (Hlen & Hlow & Hhigh); [lia|].
    set (r := for_up _ 0 m buf) in *.
    replace (0 + Z.of_nat m) with (Z.of_nat m) by lia.
    cbv zeta. unfold for_range.
    rewrite (accumulate_in_place r (Z.of_nat m)
               (fun t => c_mul (rd input t) (c_conj (rd basis (Z.of_nat m * n + t)))))
      by lia.
    replace (n - 0) with n by lia.
    change (sum_below _ (Z.to_nat n)) with (projection_coeff n input basis (Z.of_nat m)).
    unfold wr. rewrite Nat2Z.id. split; [|split].
    + rewrite length_insert. exact Hlen.
    + intros c Hc. destruct (decide (c = m)) as [->|Hne].
      * apply list_lookup_insert_eq. lia.
      * rewrite list_lookup_insert_ne by congruence. apply Hlow. lia.
    + intros p Hp. rewrite list_lookup_insert_ne by lia. apply Hhigh. lia.
Qed.

(** A run of in-place updates, as in one column of the weighting loop and
    in the normalization loop: [len] cells from [base] on are each replaced
    by [f] of what they held. *)
Lemma update_run {A} `{Inhabited A} (f : A -> A) (buf : list A) (base : Z) (len : nat) :
  0 <= base -> (Z.to_nat base + len <= length buf)%nat ->
  let r := for_up (fun tidx b => wr b (base + tidx) (f (rd b (base + tidx))))
                  0 len buf in
  length r = length buf /\
  (forall p : nat,
      r !! p = if decide (Z.to_nat base <= p < Z.to_nat base + len)%nat
               then Some (f (rd buf (Z.of_nat p))) else buf !! p).
Proof.
  intros Hb. induction len as [|len IH]; intros Hfit r.
  - subst r. simpl. split; [done|]. intros p. case_decide; [lia|done].
  - subst r. rewrite for_up_snoc. destruct IH as (Hlen & Hlk); [lia|].
    set (r := for_up _ 0 len buf) in *.
    replace (0 + Z.of_nat len) with (Z.of_nat len) by lia.
    split; [rewrite length_wr; exact Hlen|].
    intros p. unfold wr.
    replace (Z.to_nat (base + Z.of_nat len)) with (Z.to_nat base + len)%nat by lia.
    destruct (decide (p = Z.to_nat base + len)%nat) as [->|Hne].
    + rewrite list_lookup_insert_eq by lia. case_decide; [|lia].
      do 2 f_equal. apply rd_lookup_eq. rewrite Hlk.
      case_decide; [lia|]. f_equal. lia.
    + rewrite list_lookup_insert_ne by lia. rewrite Hlk.
      repeat case_decide; try lia; done.
Qed.

(** The weighting loop multiplies every entry of column [c] by
    coefficient [c], the coefficient buffer being read, not written. *)
Lemma apply_coeffs_upto (n : Z) (kltc buf : list cplx) (m : nat) :
  0 <= n -> (Z.to_nat (Z.of_nat m * n) <= length buf)%nat ->
  let r := for_up (fun cidx kltb_buf =>
             for_range 0 n (fun tidx kltb_buf =>
               wr kltb_buf (cidx * n + tidx)
                  (c_mul (rd kltb_buf (cidx * n + tidx)) (rd kltc cidx)))
               kltb_buf) 0 m buf in
  length r = length buf /\
  (forall (c : nat) (t : Z), (c < m)%nat -> 0 <= t < n ->
      r !! Z.to_nat (Z.of_nat c * n + t)
      = Some (c_mul (rd buf (Z.of_nat c * n + t)) (rd kltc (Z.of_nat c)))) /\
  (forall p : nat, (Z.to_nat (Z.of_nat m * n) <= p)%nat -> r !! p = buf !! p).
Proof.
  intros Hn. induction m as [|m IH]; intros Hfit r.
  - subst r. simpl. split; [done|]. split; [intros; lia | done].
  - subst r. rewrite for_up_snoc.
    destruct IH as (Hlen & Hcols & Hrest); [nia|].
    set (r := for_up _ 0 m buf) in *.
    replace (0 + Z.of_nat m) with (Z.of_nat m) by lia.
    unfold for_range. replace (n - 0) with n by lia.
    destruct (update_run (fun x => c_mul x (rd kltc (Z.of_nat m))) r
                         (Z.of_nat m * n) (Z.to_nat n))
      as (Hl & Hk); [nia|nia|].
    split; [rewrite Hl; exact Hlen|]. split.
    + intros c t Hc Ht. rewrite Hk.
      destruct (decide (c = m)) as [->|Hne].
      * case_decide; [|nia]. do 2 f_equal.
        rewrite Z2Nat.id by nia. apply rd_lookup_eq. apply Hrest. nia.
      * case_decide; [nia|]. apply Hcols; lia.
    + intros p Hp. rewrite Hk. case_decide; [nia|]. apply Hrest. nia.
Qed.

End ProjectFacts.

(** ** Transform *)

Section TransformFacts.
Context `{Sc : Scalars}.

Lemma for_down_preserves {St} (P : St -> Prop) (body : Z -> St -> St) i t s :
  (forall j s', P s' -> P (body j s')) -> P s -> P (for_down body i t s).
Proof.
  intros Hb. revert i s. induction t as [|t IH]; intros i s Hs; simpl; auto.
Qed.

Lemma length_acorr_lags (in_len n : Z) (input buf : list cplx) :
  length (acorr_lags in_len n input buf) = length buf.
Proof.
  unfold acorr_lags, for_range.
  apply (for_up_preserves (fun b => length b = length buf)); [|done].
  intros j s' Hs. apply (for_up_preserves (fun b => length b = length buf)).
  - intros ? ? ?. by rewrite length_wr.
  - by rewrite length_wr.
Qed.

Lemma length_toeplitz_fill (n : Z) (buf : list cplx) :
  length (toeplitz_fill n buf) = length buf.
Proof.
  unfold toeplitz_fill, for_countdown, for_range.
  apply (for_down_preserves (fun st => length (snd st) = length buf)); [|done].
  intros j s' Hs. apply (for_up_preserves (fun st => length (snd st) = length buf)); [|done].
  intros ? [ao bf] ?. cbn [snd] in *. by rewrite length_wr.
Qed.

Lemma length_apply_window (k : KLT) : length (in_buf (apply_window k)) = length (in_buf k).
Proof.
  unfold apply_window, for_range. klt_simpl.
  apply (for_up_preserves (fun bf => length bf = length (in_buf k))); [|done].
  intros ? ? ?. by rewrite length_wr.
Qed.

(** Windowing and the autocorrelation step write [in_buf] and [ac_buf] and
    nothing else. *)
Lemma before_eigendecomp_keeps (b : Build) (k : KLT) :
  let k' := before_eigendecomp b k in
  in_len k' = in_len k /\ window k' = window k /\
  eval_normalized k' = eval_normalized k /\
  acm_order k' = acm_order k /\ num_eig k' = num_eig k /\
  win_buf k' = win_buf k /\ eval_buf k' = eval_buf k /\
  kltc_buf k' = kltc_buf k /\ kltb_buf k' = kltb_buf k.
Proof.
  unfold before_eigendecomp.
  destruct (flag (KLT_SUPPORT_WIN b) && flag (window k)); repeat split.
Qed.

Lemma before_eigendecomp_sized (b : Build) (k : KLT) :
  sized k -> sized (before_eigendecomp b k).
Proof.
  intros []. unfold before_eigendecomp.
  destruct (flag (KLT_SUPPORT_WIN b) && flag (window k));
    constructor; unfold acorr_matrix; klt_simpl;
    rewrite ?length_toeplitz_fill, ?length_acorr_lags; try assumption;
    rewrite length_apply_window; assumption.
Qed.

(** The last two loops of [transform]. *)
Lemma project_spec (k : KLT) (i : Z) :
  length (kltc_buf k) = Z.to_nat (num_eig k) ->
  length (kltb_buf k) = Z.to_nat (kltb_size (acm_order k) (num_eig k)) ->
  0 <= acm_order k -> 0 <= i < num_eig k ->
  let coeff := projection_coeff (acm_order k) (in_buf k) (kltb_buf k) i in
  kltc_buf (project k) !! Z.to_nat i = Some coeff /\
  (forall t, 0 <= t < acm_order k ->
     kltb_buf (project k) !! Z.to_nat (i * acm_order k + t)
     = Some (c_mul (eigenvector_entry (acm_order k) (kltb_buf k) i t) coeff)).
Proof.
  intros Hc Hb Hn Hi coeff. unfold project. klt_simpl.
  destruct (klt_coeffs_upto (acm_order k) (in_buf k) (kltb_buf k) (kltc_buf k)
              (Z.to_nat (num_eig k - 0))) as (_ & Hco & _); [lia|].
  change (for_up _ 0 (Z.to_nat (num_eig k - 0)) (kltc_buf k))
    with (klt_coeffs (num_eig k) (acm_order k) (in_buf k) (kltb_buf k) (kltc_buf k)) in Hco.
  set (kc := klt_coeffs _ _ _ _ _) in *.
  assert (kc !! Z.to_nat i = Some coeff) as Hci.
  { rewrite Hco by lia. unfold coeff. by rewrite Z2Nat.id by lia. }
  split; [exact Hci|]. intros t Ht.
  destruct (apply_coeffs_upto (acm_order k) kc (kltb_buf k) (Z.to_nat (num_eig k - 0)))
    as (_ & Hcols & _); [lia| |].
  { rewrite Hb. unfold kltb_size. apply Nat.eq_le_incl. f_equal. lia. }
  specialize (Hcols (Z.to_nat i) t). rewrite Z2Nat.id in Hcols by lia.
  change (for_up _ 0 (Z.to_nat (num_eig k - 0)) (kltb_buf k))
    with (apply_coeffs (num_eig k) (acm_order k) kc (kltb_buf k)) in Hcols.
  rewrite Hcols by lia.
  unfold eigenvector_entry. do 2 f_equal.
  unfold rd. by apply list_lookup_total_correct.
Qed.

(** C4. After a successful [transform], for every retained index [i]:
    coefficient [i] is the sum over [t] in [[0, acmOrder)] of
    [input[t] * conj(eigenvector_i[t])], taken against the eigenvector as the
    decomposition left it (so only the first [acmOrder] samples take part),
    and every entry [t] of the exported basis column [i] is that eigenvector
    entry multiplied by coefficient [i]. *)
Theorem transform_projection (b : Build) (L : Lapack) (k : KLT) (i : Z) :
  sized k -> 0 <= acm_order k -> 0 <= i < num_eig k ->
  outcome_of (transform b L k) = Returned ->
  let decomposed := state_of (eigendecomp b L (before_eigendecomp b k)) in
  let final := state_of (transform b L k) in
  let coeff := projection_coeff (acm_order k) (in_buf final) (kltb_buf decomposed) i in
  kltc_buf final !! Z.to_nat i = Some coeff /\
  (forall t, 0 <= t < acm_order k ->
     kltb_buf final !! Z.to_nat (i * acm_order k + t)
     = Some (c_mul (eigenvector_entry (acm_order k) (kltb_buf decomposed) i t) coeff)).
Proof.
  intros Hsz Hn Hi Hret decomposed final coeff.
  pose proof (before_eigendecomp_keeps b k) as (_ & _ & _ & Hn0 & Hk0 & _).
  pose proof (eigendecomp_keeps b L (before_eigendecomp b k))
    as (_ & _ & _ & Hn1 & Hk1 & _).
  pose proof (eigendecomp_sized b L _ (before_eigendecomp_sized b k Hsz)) as Hsz1.
  fold decomposed in Hn1, Hk1, Hsz1. cbv zeta in Hn0, Hk0.
  rewrite Hn0 in Hn1. rewrite Hk0 in Hk1.
  destruct Hsz1 as [_ _ _ _ Hc Hb _ _ _ _ _ _].
  assert (final = project (if flag (KLT_SUPPORT_EVALN b) && flag (eval_normalized decomposed)
                           then normalize_evals decomposed else decomposed)) as Hfinal.
  { subst final decomposed. unfold transform in *.
    destruct (eigendecomp b L (before_eigendecomp b k)) as [[o k1] ev].
    destruct o; [reflexivity | discriminate Hret]. }
  clearbody final decomposed. subst final. subst coeff.
  rewrite <- Hn1 in *. rewrite <- Hk1 in *.
  destruct (flag (KLT_SUPPORT_EVALN b) && flag (eval_normalized decomposed)).
  - apply (project_spec (normalize_evals decomposed) i); assumption.
  - apply (project_spec decomposed i); assumption.
Qed.

(** When [transform] throws, the object is as [eigendecomp] left it at
    the [throw]: eigenvalues and basis cleared, coefficients not written. *)
Lemma transform_threw (b : Build) (L : Lapack) (k : KLT) (what : string) :
  sized k ->
  outcome_of (transform b L k) = Threw what ->
  let k' := state_of (transform b L k) in
  (forall i : nat, (i < Z.to_nat (num_eig k))%nat -> (i < Z.to_nat (acm_order k))%nat ->
      eval_buf k' !! i = Some f_zero) /\
  (forall i : nat, (i < Z.to_nat (num_eig k * acm_order k))%nat ->
      kltb_buf k' !! i = Some c_zero) /\
  kltc_buf k' = kltc_buf k.
Proof.
  intros Hsz Hthrew k'.
  pose proof (before_eigendecomp_keeps b k) as (_ & _ & _ & Hn0 & Hk0 & _ & He0 & Hc0 & Hb0).
  pose proof (eigendecomp_keeps b L (before_eigendecomp b k))
    as (_ & _ & _ & _ & _ & _ & _ & Hc1).
  cbv zeta in *.
  assert (outcome_of (eigendecomp b L (before_eigendecomp b k)) = Threw what
          /\ k' = state_of (eigendecomp b L (before_eigendecomp b k))) as [Hth ->].
  { subst k'. unfold transform in *.
    destruct (eigendecomp b L (before_eigendecomp b k)) as [[o k1] ev].
    destruct o; [discriminate Hthrew | split; [exact Hthrew | reflexivity]]. }
  destruct (eigendecomp_threw_zeroes b L _ what Hth) as (Hev & Hkb).
  rewrite Hn0, Hk0, He0, Hb0 in *. destruct Hsz as [_ _ _ Hle _ Hlb _ _ _ _ _ _].
  split; [|split].
  - intros i Hi Hi'. apply Hev; [exact Hi | lia].
  - intros i Hi. apply Hkb; [exact Hi|]. rewrite Hlb. unfold kltb_size. lia.
  - rewrite Hc1. exact Hc0.
Qed.

(** C10. In the shipped configuration [transform] leaves [in_buf] as the
    caller filled it, whatever [window] and [eval_normalized] hold: the
    window is not applied (the decomposition is entered on the caller's
    samples) and a successful call goes from the decomposition straight to
    the projection (the eigenvalues are not normalized). *)
Theorem shipped_transform_reads_input_only (L : Lapack) (k : KLT) :
  in_buf (state_of (transform shipped L k)) = in_buf k
  /\ before_eigendecomp shipped k = acorr_matrix k
  /\ (outcome_of (transform shipped L k) = Returned ->
      state_of (transform shipped L k)
      = project (state_of (eigendecomp shipped L (acorr_matrix k))))
  /\ in_buf (acorr_matrix k) = in_buf k.
Proof.
  assert (before_eigendecomp shipped k = acorr_matrix k) as Hb by reflexivity.
  pose proof (eigendecomp_keeps shipped L (acorr_matrix k))
    as (_ & _ & _ & _ & _ & Hin & _).
  cbv zeta in Hin. unfold transform. rewrite Hb.
  destruct (eigendecomp shipped L (acorr_matrix k)) as [[o k1] ev].
  unfold state_of, outcome_of in *. cbn [fst snd] in *.
  destruct o; cbn [fst snd flag KLT_SUPPORT_EVALN shipped Z.eqb negb andb];
    repeat split; try exact Hin; intros Habs; discriminate Habs.
Qed.

End TransformFacts.

(** ** Eigenvalue normalization *)

Section NormalizeFacts.
Context `{Sc : Scalars}.

Lemma max_eval_of_take (num_eig : Z) (evals : list real) :
  (Z.to_nat num_eig <= length evals)%nat ->
  max_eval_of num_eig evals = largest_from_zero (take (Z.to_nat num_eig) evals).
Proof.
  unfold max_eval_of, for_range, largest_from_zero.
  replace (num_eig - 0) with num_eig by lia.
  generalize (Z.to_nat num_eig). intros m. induction m as [|m IH]; intros Hm.
  - reflexivity.
  - rewrite for_up_snoc, IH by lia.
    destruct (lookup_lt_is_Some_2 evals m) as [x Hx]; [lia|].
    rewrite (take_S_r _ _ _ Hx), fold_left_app. cbn [fold_left].
    f_equal. unfold rd. replace (Z.to_nat (0 + Z.of_nat m)) with m by lia.
    by apply list_lookup_total_correct.
Qed.

(** The second loop of the block multiplies the leading [num_eig] cells by
    the reciprocal of the maximum the first loop found, and no other. *)
Lemma normalize_evals_spec (k : KLT) (p : nat) :
  0 <= num_eig k -> (Z.to_nat (num_eig k) <= length (eval_buf k))%nat ->
  eval_buf (normalize_evals k) !! p
  = if decide (p < Z.to_nat (num_eig k))%nat
    then Some (f_mul (rd (eval_buf k) (Z.of_nat p))
                     (f_div f_one (largest_from_zero
                                     (take (Z.to_nat (num_eig k)) (eval_buf k)))))
    else eval_buf k !! p.
Proof.
  intros Hk Hlen. unfold normalize_evals. klt_simpl.
  rewrite max_eval_of_take by exact Hlen.
  set (inv := f_div f_one _).
  destruct (update_run (fun x => f_mul x inv) (eval_buf k) 0 (Z.to_nat (num_eig k - 0)))
    as (_ & Hlk); [lia|lia|].
  change (for_up _ 0 (Z.to_nat (num_eig k - 0)) (eval_buf k))
    with (for_range 0 (num_eig k)
            (fun eidx eval_buf => wr eval_buf eidx (f_mul (rd eval_buf eidx) inv))
            (eval_buf k)) in Hlk.
  rewrite Hlk. repeat case_decide; try lia; reflexivity.
Qed.

(** C8, as amended.  With normalization compiled in and switched on, a
    successful [transform] multiplies each of the [numEig] retained
    eigenvalues by [1.0f / m], where [m] is the larger of [0.0f] and the
    retained eigenvalues; the cell that held [m] ends as [m * (1.0f / m)].
    The cells of the eigenvalue buffer past [numEig] keep what the
    decomposition left, and the coefficient and basis buffers are what the
    projection makes of the decomposition without normalization. *)
Theorem normalization_scales_by_reciprocal (b : Build) (L : Lapack) (k : KLT) :
  sized k -> 0 <= num_eig k <= acm_order k ->
  flag (KLT_SUPPORT_EVALN b) = true -> flag (eval_normalized k) = true ->
  outcome_of (transform b L k) = Returned ->
  let decomposed := state_of (eigendecomp b L (before_eigendecomp b k)) in
  let final := state_of (transform b L k) in
  let m := largest_from_zero (take (Z.to_nat (num_eig k)) (eval_buf decomposed)) in
  (forall i : nat, (i < Z.to_nat (num_eig k))%nat ->
      eval_buf final !! i
      = Some (f_mul (rd (eval_buf decomposed) (Z.of_nat i)) (f_div f_one m))) /\
  (forall i : nat, (Z.to_nat (num_eig k) <= i)%nat ->
      eval_buf final !! i = eval_buf decomposed !! i) /\
  kltc_buf final = kltc_buf (project decomposed) /\
  kltb_buf final = kltb_buf (project decomposed).
Proof.
  intros Hsz Hk Hb Hw Hret decomposed final m.
  pose proof (before_eigendecomp_keeps b k) as (_ & _ & He0 & Hn0 & Hk0 & _).
  pose proof (eigendecomp_keeps b L (before_eigendecomp b k))
    as (_ & _ & He1 & Hn1 & Hk1 & _).
  pose proof (eigendecomp_sized b L _ (before_eigendecomp_sized b k Hsz)) as Hsz1.
  fold decomposed in He1, Hn1, Hk1, Hsz1. cbv zeta in He0, Hn0, Hk0.
  rewrite He0 in He1. rewrite Hn0 in Hn1. rewrite Hk0 in Hk1.
  destruct Hsz1 as [_ _ _ Hle _ _ _ _ _ _ _ _].
  assert (final = project (normalize_evals decomposed)) as ->.
  { subst final decomposed. unfold transform in *.
    destruct (eigendecomp b L (before_eigendecomp b k)) as [[o k1] ev].
    destruct o; [|discriminate Hret].
    unfold state_of in *. cbn [fst snd] in *. by rewrite Hb, He1, Hw. }
  subst m. clearbody decomposed. rewrite <- Hk1 in *. rewrite <- Hn1 in *.
  change (eval_buf (project (normalize_evals decomposed)))
    with (eval_buf (normalize_evals decomposed)).
  split; [|split; [|split; reflexivity]].
  - intros i Hi. rewrite normalize_evals_spec by lia. case_decide; [done|lia].
  - intros i Hi. rewrite normalize_evals_spec by lia. case_decide; [lia|done].
Qed.

End NormalizeFacts.

(** ** Repeated calls *)

Section RepeatFacts.
Context `{Sc : Scalars}.







(** Every cell of the packed buffer belongs to one packed column. *)
Lemma packed_cover (n : Z) (c : nat) (p : Z) :
  0 <= p < colstart n c -> Z.of_nat c <= n ->
  exists c' q : nat, (c' < c)%nat /\ Z.of_nat q < n - Z.of_nat c' /\
                     p = colstart n c' + Z.of_nat q.
Proof.
  induction c as [|c IH]; intros Hp Hc.
  - simpl in Hp. lia.
  - rewrite colstart_step in Hp.
    destruct (decide (p < colstart n c)) as [Hlt|Hge].
    + destruct IH as (c' & q & Hc' & Hq & ->); [lia|lia|].
      exists c', q. repeat split; [lia | exact Hq].
    + exists c, (Z.to_nat (p - colstart n c)). repeat split; lia.
Qed.




Lemma project_sized (k : KLT) : sized k -> sized (project k).
Proof.
  intros []. constructor; try assumption;
    unfold project, klt_coeffs, apply_coeffs, for_range; klt_simpl.
  - rewrite <- sz_kltc0.
    apply (for_up_preserves (fun bf => length bf = length (kltc_buf k))); [|done].
    intros j s' Hs. apply (for_up_preserves (fun bf => length bf = length (kltc_buf k))).
    + intros ? ? ?. by rewrite length_wr.
    + by rewrite length_wr.
  - rewrite <- sz_kltb0.
    apply (for_up_preserves (fun bf => length bf = length (kltb_buf k))); [|done].
    intros j s' Hs. apply (for_up_preserves (fun bf => length bf = length (kltb_buf k))).
    + intros ? ? ?. by rewrite length_wr.
    + done.
Qed.

Lemma normalize_evals_sized (k : KLT) : sized k -> sized (normalize_evals k).
Proof.
  intros []. constructor; try assumption.
  unfold normalize_evals, for_range. klt_simpl. rewrite <- sz_eval0.
  apply (for_up_preserves (fun bf => length bf = length (eval_buf k))); [|done].
  intros ? ? ?. by rewrite length_wr.
Qed.

Lemma transform_sized (b : Build) (L : Lapack) (k : KLT) :
  sized k -> sized (state_of (transform b L k)).
Proof.
  intros Hsz.
  pose proof (eigendecomp_sized b L _ (before_eigendecomp_sized b k Hsz)) as H1.
  unfold transform.
  destruct (eigendecomp b L (before_eigendecomp b k)) as [[o k1] ev].
  unfold state_of in *. cbn [fst snd] in *. destruct o; [|exact H1].
  cbn [fst snd]. apply project_sized.
  destruct (flag (KLT_SUPPORT_EVALN b) && flag (eval_normalized k1));
    [apply normalize_evals_sized|]; exact H1.
Qed.




End RepeatFacts.

(** ** The stand-in keeps the contract *)

Section StandInFacts.











Lemma flag_zero (z : Z) : flag z = true -> z <> 0.
Proof. unfold flag. intros H ->. discriminate H. Qed.



End StandInFacts.

(** ** Sample runs *)

Section SampleRuns.

Lemma engine_sized (num_eig eval_normalized junk : Z) (input : list (spec_float * spec_float)) :
  0 <= num_eig -> length input = 8%nat -> sized (engine num_eig eval_normalized junk input).
Proof.
  intros Hk Hl. constructor; unfold engine, object; klt_simpl;
    rewrite ?length_replicate; try reflexivity; exact Hl.
Qed.

Lemma acorr_matrix_lag_sum_witness :
  ac_buf (acorr_matrix (engine 1 0 7 window_41)) !! Z.to_nat 1
  = Some (lag_sum (in_len (engine 1 0 7 window_41))
                  (in_buf (engine 1 0 7 window_41)) 1).
Proof.
  apply (acorr_matrix_lag_sum (engine 1 0 7 window_41) 1); [reflexivity | simpl; lia].
Defined.

Lemma toeplitz_packed_entry_witness :
  ac_buf (acorr_matrix (engine 1 0 7 window_41))
    !! Z.to_nat (packed_index (acm_order (engine 1 0 7 window_41)) 1 1)
  = Some (lag_sum (in_len (engine 1 0 7 window_41))
                  (in_buf (engine 1 0 7 window_41)) (1 - 1))
  /\ ac_buf (acorr_matrix (engine 1 0 7 window_41))
       !! Z.to_nat (packed_index (acm_order (engine 1 0 7 window_41)) 1 1)
     = ac_buf (acorr_matrix (engine 1 0 7 window_41)) !! Z.to_nat (1 - 1).
Proof.
  apply (toeplitz_packed_entry (engine 1 0 7 window_41) 1 1);
    [reflexivity | lia | lia | simpl; lia].
Defined.


Lemma transform_projection_witness :
  kltc_buf (state_of (transform shipped (stand_in healthy) (engine 1 0 7 window_41)))
    !! Z.to_nat 0
  = Some (projection_coeff 2 window_41 [re 0; re 1] 0).
Proof.
  destruct (transform_projection shipped (stand_in healthy) (engine 1 0 7 window_41) 0)
    as [H _];
    [apply engine_sized; [lia | reflexivity] | simpl; lia | simpl; lia
    | vm_compute; reflexivity |].
  exact H.
Defined.


Lemma normalization_scales_by_reciprocal_witness :
  eval_buf (state_of (transform with_evaln (stand_in healthy) (engine 1 1 7 window_41)))
    !! 0%nat
  = Some (B32.mul (B32.of_Z 41) (B32.div B32.one (B32.of_Z 41))).
Proof.
  destruct (normalization_scales_by_reciprocal with_evaln (stand_in healthy)
              (engine 1 1 7 window_41)) as [H _];
    [apply engine_sized; [lia | reflexivity] | simpl; lia | reflexivity | reflexivity
    | vm_compute; reflexivity |].
  exact (H 0%nat ltac:(simpl; lia)).
Defined.


(** The failing call of C1: a window with a NaN sample, on an object whose
    previous call succeeded.  The call throws at the reduction, the
    eigenvalue and the basis are zero, and the coefficient buffer still
    holds the coefficient of the previous window, which is not zero. *)
Theorem failed_transform_keeps_coefficients :
  let first := transform shipped (stand_in healthy) (engine 1 0 7 window_41) in
  let second := transform shipped (stand_in healthy)
                          (set_in_buf window_nan (state_of first)) in
  outcome_of first = Returned
  /\ kltc_buf (state_of first) = [re 6]
  /\ outcome_of second = Threw "LAPACKE_chptrd() failed, info=-4"
  /\ take 1 (eval_buf (state_of second)) = [B32.zero]
  /\ kltb_buf (state_of second) = [(B32.zero, B32.zero); (B32.zero, B32.zero)]
  /\ kltc_buf (state_of second) = [re 6]
  /\ re 6 <> (B32.zero, B32.zero).
Proof. vm_compute. repeat split. intros H. discriminate H. Qed.

(** The same on a fresh object: the coefficient buffer keeps the junk it
    was allocated with. *)
Example failed_first_call_keeps_junk :
  let r := transform shipped (stand_in healthy) (engine 1 0 7 window_nan) in
  outcome_of r = Threw "LAPACKE_chptrd() failed, info=-4"
  /\ kltc_buf (state_of r) = [re 7].
Proof. vm_compute. repeat split. Qed.

(** Two failing calls with the same samples, on one object: the first
    after the window [window_41], the second after the window [window_25].
    The coefficient buffer the caller sees differs. *)
Example failed_calls_show_earlier_coefficients :
  let after_41 := state_of (transform shipped (stand_in healthy)
                                      (engine 1 0 7 window_41)) in
  let failed_1 := state_of (transform shipped (stand_in healthy)
                                      (set_in_buf window_nan after_41)) in
  let after_25 := state_of (transform shipped (stand_in healthy)
                                      (set_in_buf window_25 failed_1)) in
  let failed_2 := state_of (transform shipped (stand_in healthy)
                                      (set_in_buf window_nan after_25)) in
  kltc_buf failed_1 = [re 6] /\ kltc_buf failed_2 = [re 3].
Proof. vm_compute. repeat split. Qed.


(** C8 as stated fails.  The window [window_41] has the one retained
    eigenvalue 41, which is then the maximum: the normalized value is
    neither 41 / 41 nor 1.0.  For a silent window the two retained
    eigenvalues are 0 and compare equal; normalized, they are NaN and no
    longer compare. *)
Lemma normalization_is_not_division :
  let decomposed :=
    state_of (eigendecomp with_evaln (stand_in healthy)
                (before_eigendecomp with_evaln (engine 1 1 7 window_41))) in
  let r := transform with_evaln (stand_in healthy) (engine 1 1 7 window_41) in
  let quiet_decomposed :=
    state_of (eigendecomp with_evaln (stand_in healthy)
                (before_eigendecomp with_evaln (engine 2 1 7 silence))) in
  let quiet := transform with_evaln (stand_in healthy) (engine 2 1 7 silence) in
  (outcome_of r = Returned
   /\ eval_buf decomposed !! 0%nat = Some (B32.of_Z 41)
   /\ B32.div (B32.of_Z 41) (B32.of_Z 41) = B32.one
   /\ eval_buf (state_of r) !! 0%nat <> Some B32.one)
  /\ (outcome_of quiet = Returned
      /\ SFleb (rd (eval_buf quiet_decomposed) 0) (rd (eval_buf quiet_decomposed) 1) = true
      /\ SFleb (rd (eval_buf (state_of quiet)) 0) (rd (eval_buf (state_of quiet)) 1) = false).
Proof. vm_compute. repeat split. intros H. discriminate H. Qed.

End SampleRuns.

(** ** Construction and destruction *)

Section LifecycleFacts.

(** The failing construction of C6: 100 bytes to give, [in_len = 8],
    [acm_order = 4], [num_eig = 2].  [in_buf] (64 bytes, block 0) is
    granted, [ac_buf] (10 elements, 80 bytes) is refused.  The exception
    names the buffer and its size, and block 0 is still live when it leaves
    the constructor, with no object left to free it. *)
Theorem constructor_failure_leaks :
  KLT_new (grant_within 100) shipped 8 4 2 empty_heap
  = (Ctor_threw "Failed to allocate ac_buf (size 10)",
     {| live := [(0%nat, 64)]; fresh := 1 |}).
Proof. vm_compute. reflexivity. Qed.

(** The destructor, when it runs, does release every buffer. *)
Example construct_then_destroy :
  match KLT_new (grant_within 1000) shipped 8 4 2 empty_heap with
  | (Constructed obj, h) => live (KLT_delete shipped obj h) = []
  | (Ctor_threw _, _) => False
  end.
Proof. vm_compute. reflexivity. Qed.

(** Whatever the system grants: when the constructor throws after [in_buf]
    was granted, the block of [in_buf] is live in the heap it leaves. *)
Lemma constructor_threw_keeps_in_buf
    (grant : list (nat * Z) -> Z -> Z -> bool) (b : Build)
    (in_len acm_order num_eig : Z) (h h' : heap) (what : string) :
  KLT_new grant b in_len acm_order num_eig h = (Ctor_threw what, h') ->
  grant (live h) ALIGN (bytes_of in_len sizeof_complex_float) = true ->
  In (fresh h, bytes_of in_len sizeof_complex_float) (live h').
Proof.
  unfold KLT_new, alloc_or_throw, posix_memalign. intros Hnew Hgrant.
  rewrite Hgrant in Hnew. cbn [live fresh] in Hnew.
  repeat match type of Hnew with
         | context [if flag ?f then _ else _] => destruct (flag f)
         | context [if grant ?l ?a ?sz then _ else _] =>
             destruct (grant l a sz); cbn [live fresh] in Hnew
         end;
    inversion Hnew; subst; cbn [live];
    rewrite ?in_app_iff; cbn [In]; tauto.
Qed.

End LifecycleFacts.

(** ** More on construction and destruction *)

Section HeapFacts.

Variable grant : list (nat * Z) -> Z -> Z -> bool.

(** The constructor is the table served in order. *)
Lemma KLT_new_serves (b : Build) (in_len acm_order num_eig : Z) (h : heap) :
  let r := KLT_new grant b in_len acm_order num_eig h in
  let s := serve_requests grant h (requests b in_len acm_order num_eig) in
  snd r = snd s /\
  match fst r, snd (fst s) with
  | Constructed obj, None => pointers b obj = fst (fst s)
  | Ctor_threw what, Some rq => what = ctor_message rq
  | _, _ => False
  end.
Proof.
  unfold KLT_new, alloc_or_throw, requests.
  destruct (flag (KLT_SUPPORT_WIN b)) eqn:W; cbn [app serve_requests request_bytes snd].
  all: unfold posix_memalign.
  all: repeat match goal with
         | |- context [if grant ?l ?a ?sz then _ else _] =>
             destruct (grant l a sz); cbn [live fresh fst snd]
         end.
  all: unfold pointers; rewrite ?W; split; reflexivity.
Qed.

Lemma serve_requests_spec (rqs : list (string * Z * Z)) (h : heap) :
  let s := serve_requests grant h rqs in
  let count := length (fst (fst s)) in
  fst (fst s) = map Some (seq (fresh h) count) /\
  live (snd s) = live h ++ granted_blocks (fresh h) (take count (map request_bytes rqs)) /\
  fresh (snd s) = (fresh h + count)%nat /\
  match snd (fst s) with
  | None => count = length rqs
  | Some rq => rqs !! count = Some rq /\ grant (live (snd s)) ALIGN (request_bytes rq) = false
  end.
Proof.
  revert h. induction rqs as [|rq rest IH]; intros h; cbn [serve_requests].
  - cbn. rewrite app_nil_r. split; [done|]. split; [done|]. split; [lia | done].
  - unfold posix_memalign. destruct (grant (live h) ALIGN (request_bytes rq)) eqn:G.
    + specialize (IH (mkHeap (live h ++ [(fresh h, request_bytes rq)]) (S (fresh h)))).
      destruct (serve_requests grant _ rest) as [[ps refused] h'].
      cbn [fst snd live fresh length map] in *.
      destruct IH as (Hps & Hlive & Hfresh & Hend).
      split; [cbn [seq map]; f_equal; exact Hps|].
      split.
      { rewrite Hlive, <- app_assoc. reflexivity. }
      split; [lia|].
      destruct refused as [rq'|]; [|lia]. exact Hend.
    + cbn. rewrite app_nil_r. split; [done|]. split; [done|]. split; [lia|]. split; [done | exact G].
Qed.

Lemma filter_keep_all {A} (P : A -> Prop) `{forall x, Decision (P x)} (l : list A) :
  Forall P l -> filter P l = l.
Proof.
  induction 1 as [|x l Hx _ IH]; [reflexivity|].
  rewrite filter_cons. case_decide; [by rewrite IH | done].
Qed.

Lemma filter_drop_all {A} (P : A -> Prop) `{forall x, Decision (P x)} (l : list A) :
  Forall (fun x => ~ P x) l -> filter P l = [].
Proof.
  induction 1 as [|x l Hx _ IH]; [reflexivity|].
  rewrite filter_cons. case_decide; [done | exact IH].
Qed.

Lemma free_if_set_live (p : option nat) (h : heap) :
  live (free_if_set p h) = filter (fun blk => Some (fst blk) <> p) (live h)
  /\ fresh (free_if_set p h) = fresh h.
Proof.
  destruct p as [q|]; cbn [free_if_set free live fresh]; split; try reflexivity.
  - apply list_filter_iff. intros blk. split; congruence.
  - symmetry. apply filter_keep_all. apply Forall_forall. intros blk _. discriminate.
Qed.

Lemma release_all_live (ps : list (option nat)) (h : heap) :
  live (fold_left (fun h p => free_if_set p h) ps h)
  = filter (fun blk => ~ elem_of (Some (fst blk)) ps) (live h)
  /\ fresh (fold_left (fun h p => free_if_set p h) ps h) = fresh h.
Proof.
  revert h. induction ps as [|p ps IH]; intros h; cbn [fold_left].
  - split; [|reflexivity]. symmetry. apply filter_keep_all.
    apply Forall_forall. intros blk _. apply not_elem_of_nil.
  - destruct (IH (free_if_set p h)) as [Hl Hf].
    destruct (free_if_set_live p h) as [Hl1 Hf1].
    split; [|congruence].
    rewrite Hl, Hl1, list_filter_filter. apply list_filter_iff.
    intros blk. rewrite not_elem_of_cons. tauto.
Qed.

(** X1. The destructor releases exactly the blocks the object's pointers
    name and leaves every other block of the heap as it is, in place; a
    [NULL] pointer costs nothing, so destroying an object whose pointers
    are all [NULL] leaves the heap unchanged. *)
Theorem destructor_releases_what_it_points_to (b : Build) (obj : KLT_ptrs) (h : heap) :
  live (KLT_delete b obj h)
  = filter (fun blk => ~ elem_of (Some (fst blk)) (pointers b obj)) (live h)
  /\ fresh (KLT_delete b obj h) = fresh h
  /\ KLT_delete b (mkPtrs None None None None None None None None None None None None) h
     = h.
Proof.
  assert (KLT_delete b obj h
          = fold_left (fun h p => free_if_set p h) (pointers b obj) h) as ->.
  { unfold KLT_delete, pointers. destruct (flag (KLT_SUPPORT_WIN b)); reflexivity. }
  destruct (release_all_live (pointers b obj) h) as [Hl Hf].
  split; [exact Hl|]. split; [exact Hf|].
  unfold KLT_delete. destruct (flag (KLT_SUPPORT_WIN b)); reflexivity.
Qed.



(** X4. Construction followed by destruction gives back the heap: on a
    heap whose block numbers lie below the next one to hand out, the
    destructor of a constructed object releases every block the constructor
    obtained and nothing else. *)
Theorem construct_then_destroy_restores_heap
    (b : Build) (in_len acm_order num_eig : Z) (h h' : heap) (obj : KLT_ptrs) :
  heap_ok h ->
  KLT_new grant b in_len acm_order num_eig h = (Constructed obj, h') ->
  live (KLT_delete b obj h') = live h.
Proof.
  intros Hok Hnew.
  destruct (KLT_new_serves b in_len acm_order num_eig h) as [Hh Hr].
  destruct (serve_requests_spec (requests b in_len acm_order num_eig) h)
    as (Hps & Hlive & _ & Hend).
  rewrite Hnew in Hh, Hr. cbn [fst snd] in Hh, Hr.
  destruct (serve_requests grant h _) as [[ps refused] h''].
  cbn [fst snd] in *. subst h''.
  destruct refused as [rq|]; [contradiction|].
  assert (KLT_delete b obj h'
          = fold_left (fun h p => free_if_set p h) (pointers b obj) h') as ->.
  { unfold KLT_delete, pointers. destruct (flag (KLT_SUPPORT_WIN b)); reflexivity. }
  destruct (release_all_live (pointers b obj) h') as [-> _].
  rewrite Hlive, filter_app, Hr, Hps.
  rewrite filter_keep_all, filter_drop_all; [apply app_nil_r | |].
  - apply Forall_forall. intros [id sz] Hin Hout. apply Hout. clear Hout.
    unfold granted_blocks in Hin. apply elem_of_zip_l in Hin.
    rewrite length_take, length_map in Hin.
    apply list_elem_of_In, in_map, list_elem_of_In.
    cbn [fst] in *. rewrite ?List.length_seq, ?length_map in Hin.
    rewrite elem_of_seq in *. lia.
  - unfold heap_ok in Hok. rewrite Forall_forall in Hok.
    apply Forall_forall. intros blk Hin Hmem.
    apply Hok in Hin. apply list_elem_of_In, in_map_iff in Hmem.
    destruct Hmem as (id & [= Hsame] & Hid). apply in_seq in Hid. lia.
Qed.

End HeapFacts.



Lemma construct_then_destroy_restores_heap_witness :
  let h := mkHeap [(0%nat, 16); (2%nat, 40)] 3 in
  exists (obj : KLT_ptrs) (h' : heap),
    heap_ok h /\
    KLT_new (grant_within 1000) shipped 8 4 2 h = (Constructed obj, h') /\
    live (KLT_delete shipped obj h') = live h.
Proof.
  intros h.
  assert (heap_ok h) as Hok by (repeat constructor).
  eexists _, _. split; [exact Hok|].
  split; [vm_compute; reflexivity|].
  apply (construct_then_destroy_restores_heap (grant_within 1000) shipped 8 4 2 h);
    [exact Hok | vm_compute; reflexivity].
Defined.

(** ** The order of the library calls *)

Section CallFacts.
Context `{Sc : Scalars}.



End CallFacts.

(** ** Messages *)

Lemma dec_inj (n m : Z) : dec n = dec m -> n = m.
Proof.
  unfold dec. intros H. apply DecimalZ.to_int_inj.
  assert (forall z, NilZero.int_of_string (NilZero.string_of_int (Z.to_int z))
                    = Some (Z.to_int z)) as Hback.
  { intros z. apply NilZero.isi; destruct z; cbn; try discriminate;
      intros [= Hnil]; exact (DecimalPos.Unsigned.to_uint_nonnil _ Hnil). }
  apply (f_equal NilZero.int_of_string) in H. rewrite !Hback in H.
  injection H as H. exact H.
Qed.

Lemma length_string_append (s t : string) :
  String.length (s ++ t)%string = (String.length s + String.length t)%nat.
Proof. induction s as [|c s IH]; cbn; [reflexivity | rewrite IH; reflexivity]. Qed.

Lemma string_append_cancel_r (s1 s2 t : string) :
  (s1 ++ t)%string = (s2 ++ t)%string -> s1 = s2.
Proof.
  revert s2. induction s1 as [|c s1 IH]; intros [|c' s2] H; cbn in H.
  - reflexivity.
  - apply (f_equal String.length) in H. cbn in H. rewrite length_string_append in H. lia.
  - apply (f_equal String.length) in H. cbn in H. rewrite length_string_append in H. lia.
  - injection H as -> H. f_equal. apply IH. exact H.
Qed.

Lemma string_tail_eq (c : ascii) (s1 s2 : string) : String c s1 = String c s2 -> s1 = s2.
Proof. intros [= H]. exact H. Qed.

(** Strips the characters two messages share from the front. *)
Ltac strip_common :=
  repeat match goal with
         | H : String ?c _ = String ?c _ |- _ => apply string_tail_eq in H
         end.

(** X6. The message of the exception [eigendecomp] throws tells the
    routine and the status apart: two failures with the same message are
    failures of the same routine with the same status. *)
Theorem eigendecomp_message_identifies_failure (r1 r2 : string) (i1 i2 : Z) :
  In r1 routines -> In r2 routines ->
  failed r1 i1 = failed r2 i2 -> r1 = r2 /\ i1 = i2.
Proof.
  unfold routines, failed. cbn [In].
  intros [<-|[<-|[<-|[<-|[]]]]] [<-|[<-|[<-|[<-|[]]]]] [= H]; cbn in H;
    first [ discriminate H
          | split; [reflexivity|]; strip_common; apply dec_inj; exact H ].
Qed.

(** X7. The message of the exception the constructor throws tells the
    buffer and the element count apart, across builds and arguments: two
    refused requests with the same message are requests for the same buffer
    with the same count. *)
Theorem constructor_message_identifies_request
    (b1 b2 : Build) (in_len1 acm_order1 num_eig1 in_len2 acm_order2 num_eig2 : Z)
    (rq1 rq2 : string * Z * Z) :
  In rq1 (requests b1 in_len1 acm_order1 num_eig1) ->
  In rq2 (requests b2 in_len2 acm_order2 num_eig2) ->
  ctor_message rq1 = ctor_message rq2 -> fst rq1 = fst rq2.
Proof.
  unfold requests, ctor_message.
  destruct (flag (KLT_SUPPORT_WIN b1)); destruct (flag (KLT_SUPPORT_WIN b2));
    cbn [In app].
  all: intros H1 H2;
    repeat match goal with
           | H : _ \/ _ |- _ => destruct H as [H|H]
           | H : False |- _ => destruct H
           end;
    subst rq1 rq2; cbn [fst snd]; intros H; cbn [append fst snd] in H;
    first [ discriminate H
          | strip_common; apply string_append_cancel_r, dec_inj in H;
            rewrite H; reflexivity ].
Qed.

(** ** What a call of [transform] leaves behind *)

Section TransformMore.
Context `{Sc : Scalars}.

(** A loop that rewrites element [i] from its own value, [i] from 0 up. *)
Lemma update_each {A} `{Inhabited A} (g : Z -> A -> A) (buf : list A) (len : nat) :
  (len <= length buf)%nat ->
  let r := for_up (fun i b => wr b i (g i (rd b i))) 0 len buf in
  length r = length buf /\
  (forall p : nat,
      r !! p = if decide (p < len)%nat
               then Some (g (Z.of_nat p) (rd buf (Z.of_nat p))) else buf !! p).
Proof.
  induction len as [|len IH]; intros Hfit r.
  - subst r. cbn [for_up]. split; [done|]. intros p. case_decide; [lia|done].
  - subst r. rewrite for_up_snoc.
    assert (len <= length buf)%nat as Hfit' by lia.
    specialize (IH Hfit'). cbv zeta in IH. destruct IH as [Hlen Hlk].
    set (r := for_up _ 0 len buf) in *.
    replace (0 + Z.of_nat len) with (Z.of_nat len) by lia.
    split; [rewrite length_wr; exact Hlen|].
    intros p. unfold wr. rewrite Nat2Z.id.
    destruct (decide (p = len)) as [->|Hne].
    + rewrite list_lookup_insert_eq by lia. case_decide; [|lia].
      do 2 f_equal. apply rd_lookup_eq. rewrite Hlk.
      case_decide; [lia|]. reflexivity.
    + rewrite list_lookup_insert_ne by lia. rewrite Hlk.
      repeat case_decide; try lia; done.
Qed.

Lemma apply_window_zip (k : KLT) :
  sized k -> in_buf (apply_window k) = zip_with c_scale (in_buf k) (win_buf k).
Proof.
  intros [Hin Hwin _ _ _ _ _ _ _ _ _ _].
  unfold apply_window, for_range. klt_simpl.
  replace (Z.to_nat (in_len k - 0)) with (length (in_buf k)) by lia.
  destruct (update_each (fun widx x => c_scale x (rd (win_buf k) widx))
              (in_buf k) (length (in_buf k)) (le_n _)) as [Hlen Hlk].
  apply list_eq. intros p. rewrite Hlk, lookup_zip_with.
  case_decide as Hp.
  - unfold rd. rewrite Nat2Z.id.
    destruct (lookup_lt_is_Some_2 (in_buf k) p Hp) as [x Hx].
    destruct (lookup_lt_is_Some_2 (win_buf k) p ltac:(lia)) as [w Hw].
    rewrite (list_lookup_total_correct _ _ _ Hx), (list_lookup_total_correct _ _ _ Hw).
    rewrite Hx, Hw. reflexivity.
  - rewrite (lookup_ge_None_2 (in_buf k) p) by lia. reflexivity.
Qed.

Lemma transform_in_buf (b : Build) (L : Lapack) (k : KLT) :
  in_buf (state_of (transform b L k)) = in_buf (before_eigendecomp b k)
  /\ win_buf (state_of (transform b L k)) = win_buf k.
Proof.
  pose proof (before_eigendecomp_keeps b k) as (_ & _ & _ & _ & _ & Hw0 & _).
  pose proof (eigendecomp_keeps b L (before_eigendecomp b k))
    as (_ & _ & _ & _ & _ & Hi & Hw & _).
  cbv zeta in *. unfold transform.
  destruct (eigendecomp b L (before_eigendecomp b k)) as [[o k1] ev].
  unfold state_of in *. cbn [fst snd] in *.
  destruct o; cbn [fst snd]; [|split; congruence].
  destruct (flag (KLT_SUPPORT_EVALN b) && flag (eval_normalized k1));
    unfold project, normalize_evals; klt_simpl; split; congruence.
Qed.

(** X8. With [KLT_SUPPORT_WIN] compiled in and [window] set, [transform]
    overwrites the caller's samples: [in_buf] is left holding every sample
    multiplied by its window weight, whether the call returns or throws;
    otherwise [in_buf] is left as it was.  The window weights are never
    written, and the auto-correlation is taken from the samples as
    [transform] leaves them. *)
Theorem transform_windows_input_in_place (b : Build) (L : Lapack) (k : KLT) :
  sized k ->
  let k' := state_of (transform b L k) in
  in_buf k' = (if flag (KLT_SUPPORT_WIN b) && flag (window k)
               then zip_with c_scale (in_buf k) (win_buf k) else in_buf k)
  /\ win_buf k' = win_buf k
  /\ (forall a : Z, 0 <= a < acm_order k ->
        ac_buf (before_eigendecomp b k) !! Z.to_nat a
        = Some (lag_sum (in_len k) (in_buf k') a)).
Proof.
  intros Hsz k'. subst k'.
  destruct (transform_in_buf b L k) as [-> ->].
  assert (in_buf (before_eigendecomp b k)
          = (if flag (KLT_SUPPORT_WIN b) && flag (window k)
             then zip_with c_scale (in_buf k) (win_buf k) else in_buf k)) as Hin.
  { unfold before_eigendecomp.
    destruct (flag (KLT_SUPPORT_WIN b) && flag (window k)).
    - unfold acorr_matrix. klt_simpl. apply apply_window_zip. exact Hsz.
    - reflexivity. }
  split; [exact Hin|]. split; [reflexivity|].
  intros a Ha. unfold before_eigendecomp.
  set (k1 := if flag (KLT_SUPPORT_WIN b) && flag (window k) then apply_window k else k).
  assert (acm_order k1 = acm_order k /\ in_len k1 = in_len k
          /\ length (ac_buf k1) = Z.to_nat (ac_size (acm_order k1))) as (Hn & Hl & Hac).
  { subst k1. destruct Hsz.
    destruct (flag (KLT_SUPPORT_WIN b) && flag (window k)); unfold apply_window;
      klt_simpl; repeat split; assumption. }
  pose proof (acorr_matrix_columns k1 O (Z.to_nat a) Hac) as Hcol.
  cbn [colstart] in Hcol. rewrite Z2Nat.id in Hcol by lia.
  replace (Z.to_nat (0 + a)) with (Z.to_nat a) in Hcol by lia.
  rewrite Hcol by lia. rewrite Hl. reflexivity.
Qed.

Lemma eigendecomp_outcome_cases (b : Build) (L : Lapack) (k : KLT) :
  outcome_of (eigendecomp b L k) = Returned
  \/ exists (routine : string) (info : Z),
       In routine routines /\ info <> 0
       /\ outcome_of (eigendecomp b L k) = failed routine info.
Proof.
  unfold routines.
  eigen_cases; first [ left; reflexivity | right ];
    match goal with
    | |- exists _ _, _ /\ _ /\ failed ?r ?i = _ =>
        exists r, i; split; [cbn [In]; tauto|]; split;
          [apply flag_zero; assumption | reflexivity]
    end.
Qed.

(** X9. A [transform] that throws leaves the first [num_eig] eigenvalues
    and the whole of [kltb_buf] zero and leaves [kltc_buf] as it was
    before the call; the exception is the one of [eigendecomp], naming one
    of the four routines with the status it reported, which is not zero. *)
Theorem transform_failure_postcondition
    (b : Build) (L : Lapack) (k : KLT) (what : string) :
  sized k -> 0 <= num_eig k <= acm_order k ->
  outcome_of (transform b L k) = Threw what ->
  let k' := state_of (transform b L k) in
  take (Z.to_nat (num_eig k)) (eval_buf k') = replicate (Z.to_nat (num_eig k)) f_zero
  /\ kltb_buf k' = replicate (length (kltb_buf k)) c_zero
  /\ kltc_buf k' = kltc_buf k
  /\ exists (routine : string) (info : Z),
       In routine routines /\ info <> 0 /\ Threw what = failed routine info.
Proof.
  intros Hsz Hcfg Hthrew k'.
  destruct (transform_threw b L k what Hsz Hthrew) as (Hev & Hkb & Hkc).
  pose proof (transform_sized b L k Hsz) as Hsz'. fold k' in Hev, Hkb, Hkc, Hsz'.
  assert (num_eig k' = num_eig k /\ acm_order k' = acm_order k) as [Hn Ha].
  { subst k'. clear - Hthrew. unfold transform in *.
    pose proof (before_eigendecomp_keeps b k) as (_ & _ & _ & Ha0 & Hn0 & _).
    pose proof (eigendecomp_keeps b L (before_eigendecomp b k))
      as (_ & _ & _ & Ha1 & Hn1 & _).
    cbv zeta in *.
    destruct (eigendecomp b L (before_eigendecomp b k)) as [[o k1] ev].
    unfold state_of, outcome_of in *. cbn [fst snd] in *.
    destruct o; [discriminate Hthrew|]. cbn [fst snd]. split; congruence. }
  destruct Hsz as [_ _ _ _ _ Hlb _ _ _ _ _ _].
  destruct Hsz' as [_ _ _ Hle' _ Hlb' _ _ _ _ _ _].
  rewrite Hn, Ha in *.
  split; [|split; [|split; [exact Hkc|]]].
  - apply list_eq_same_length with (Z.to_nat (num_eig k)).
    + apply length_replicate.
    + rewrite length_take. lia.
    + intros i x y Hi Hx Hy. rewrite lookup_take_lt in Hx by exact Hi.
      rewrite Hev in Hx by lia. rewrite lookup_replicate_2 in Hy by exact Hi.
      congruence.
  - apply list_eq_same_length with (length (kltb_buf k)).
    + apply length_replicate.
    + rewrite Hlb', Hlb. reflexivity.
    + intros i x y Hi Hx Hy. rewrite Hkb in Hx.
      * rewrite lookup_replicate_2 in Hy by exact Hi. congruence.
      * rewrite Hlb in Hi. unfold kltb_size in Hi.
        replace (num_eig k * acm_order k) with (acm_order k * num_eig k) by lia.
        exact Hi.
  - assert (outcome_of (eigendecomp b L (before_eigendecomp b k)) = Threw what) as Hth.
    { clear - Hthrew. unfold transform in *.
      destruct (eigendecomp b L (before_eigendecomp b k)) as [[o k1] ev].
      destruct o; [discriminate Hthrew | exact Hthrew]. }
    destruct (eigendecomp_outcome_cases b L (before_eigendecomp b k))
      as [Hret | (r & i & Hr & Hi & Hout)]; [congruence|].
    exists r, i. repeat split; [exact Hr | exact Hi | congruence].
Qed.

End TransformMore.

(** ** The whole of the auto-correlation buffer *)

Section AcorrMore.
Context `{Sc : Scalars}.

Lemma acorr_matrix_entry_cases (k : KLT) (p : nat) :
  length (ac_buf k) = Z.to_nat (ac_size (acm_order k)) ->
  1 <= acm_order k ->
  (p < length (ac_buf k))%nat ->
  exists a : nat,
    Z.of_nat a < acm_order k /\
    ac_buf (acorr_matrix k) !! p = Some (lag_sum (in_len k) (in_buf k) (Z.of_nat a)).
Proof.
  intros Hsz Hn Hp.
  destruct (packed_cover (acm_order k) (Z.to_nat (acm_order k)) (Z.of_nat p))
    as (c & q & Hc & Hq & Hpq).
  - rewrite colstart_full by lia. lia.
  - lia.
  - exists q. split; [lia|].
    replace p with (Z.to_nat (colstart (acm_order k) c + Z.of_nat q)) by lia.
    apply acorr_matrix_columns; [exact Hsz | lia | exact Hq].
Qed.

(** X10. [acorr_matrix] overwrites every element of [ac_buf]: after the
    call each element is the sum of one of the lags below [acm_order], so
    nothing of what the buffer held before the call is left in it, and the
    buffer keeps its extent. *)
Theorem acorr_matrix_leaves_no_stale_entry (k : KLT) (p : nat) :
  length (ac_buf k) = Z.to_nat (ac_size (acm_order k)) ->
  1 <= acm_order k ->
  (p < length (ac_buf k))%nat ->
  length (ac_buf (acorr_matrix k)) = length (ac_buf k) /\
  exists a : nat,
    Z.of_nat a < acm_order k /\
    ac_buf (acorr_matrix k) !! p = Some (lag_sum (in_len k) (in_buf k) (Z.of_nat a)).
Proof.
  intros Hsz Hn Hp. split.
  - unfold acorr_matrix. klt_simpl.
    rewrite length_toeplitz_fill, length_acorr_lags. reflexivity.
  - apply acorr_matrix_entry_cases; assumption.
Qed.

(** X11. Lags the input is too short for: the loop over the samples of a
    lag [a >= in_len] does not run, so the entries of the matrix at
    distance [in_len] or more from the diagonal are exactly zero, and for
    [in_len <= 0] the whole matrix is zero, whatever [in_buf] holds. *)
Theorem acorr_matrix_beyond_input_is_zero (k : KLT) :
  length (ac_buf k) = Z.to_nat (ac_size (acm_order k)) ->
  1 <= acm_order k ->
  (forall i j : Z, 0 <= i -> i <= j -> j < acm_order k -> in_len k <= j - i ->
     ac_buf (acorr_matrix k) !! Z.to_nat (packed_index (acm_order k) j i) = Some c_zero)
  /\ (in_len k <= 0 ->
      ac_buf (acorr_matrix k) = replicate (length (ac_buf k)) c_zero).
Proof.
  intros Hsz Hn.
  assert (forall a : Z, in_len k <= a -> lag_sum (in_len k) (in_buf k) a = c_zero) as Hzero.
  { intros a Ha. unfold lag_sum.
    replace (Z.to_nat (in_len k - a)) with O by lia. reflexivity. }
  split.
  - intros i j Hi Hij Hj Hshort.
    rewrite <- (Z2Nat.id i) at 1 by lia. rewrite <- colstart_packed.
    rewrite Z2Nat.id by lia.
    pose proof (acorr_matrix_columns k (Z.to_nat i) (Z.to_nat (j - i)) Hsz) as Hcol.
    rewrite !Z2Nat.id in Hcol by lia.
    rewrite Hcol by lia. f_equal. apply Hzero. exact Hshort.
  - intros Hempty.
    apply list_eq_same_length with (length (ac_buf k)).
    + apply length_replicate.
    + unfold acorr_matrix. klt_simpl.
      rewrite length_toeplitz_fill, length_acorr_lags. reflexivity.
    + intros p x y Hp Hx Hy.
      destruct (acorr_matrix_entry_cases k p Hsz Hn Hp) as (a & Ha & Hlk).
      rewrite Hzero in Hlk by lia.
      rewrite lookup_replicate_2 in Hy by exact Hp. congruence.
Qed.

End AcorrMore.

(** ** Normalizing a spectrum without a positive eigenvalue *)

Section NormalizeMore.
Context `{Sc : Scalars}.

Lemma transform_returned_normalized (b : Build) (L : Lapack) (k : KLT) :
  flag (KLT_SUPPORT_EVALN b) = true -> flag (eval_normalized k) = true ->
  outcome_of (transform b L k) = Returned ->
  state_of (transform b L k)
  = project (normalize_evals (state_of (eigendecomp b L (before_eigendecomp b k)))).
Proof.
  intros Hb Hw Hret.
  pose proof (before_eigendecomp_keeps b k) as (_ & _ & He0 & _).
  pose proof (eigendecomp_keeps b L (before_eigendecomp b k)) as (_ & _ & He1 & _).
  cbv zeta in He0, He1. rewrite He0 in He1.
  unfold transform in *.
  destruct (eigendecomp b L (before_eigendecomp b k)) as [[o k1] ev].
  destruct o; [|discriminate Hret].
  unfold state_of in *. cbn [fst snd] in *. by rewrite Hb, He1, Hw.
Qed.

End NormalizeMore.

Lemma largest_from_zero_of_zeros (values : list spec_float) :
  Forall (fun x => exists s, x = S754_zero s) values ->
  exists s, largest_from_zero values = S754_zero s.
Proof.
  unfold largest_from_zero.
  assert (forall acc, (exists s, acc = S754_zero s) ->
            Forall (fun x => exists s, x = S754_zero s) values ->
            exists s, fold_left (fun largest x => std_max x largest) values acc
                      = S754_zero s) as Hgen.
  { induction values as [|x values IH]; intros acc Hacc Hall; cbn [fold_left].
    - exact Hacc.
    - apply Forall_cons in Hall. destruct Hall as [[sx ->] Hall].
      destruct Hacc as [sa ->]. apply IH; [|exact Hall].
      destruct sx, sa; vm_compute; eexists; reflexivity. }
  apply Hgen. exists false. reflexivity.
Qed.

(** X12. Normalizing an all-zero spectrum: when [KLT_SUPPORT_EVALN] is
    compiled in, [eval_normalized] is set and the [num_eig] eigenvalues the
    decomposition left are all zero (of either sign), the maximum found is
    zero, its reciprocal is infinite, and [transform] returns with every
    one of the [num_eig] eigenvalues a NaN. *)
Theorem normalizing_zero_spectrum_gives_nan
    (b : Build) (L : Lapack) (k : KLT) (i : nat) :
  sized k -> 0 <= num_eig k <= acm_order k ->
  flag (KLT_SUPPORT_EVALN b) = true -> flag (eval_normalized k) = true ->
  outcome_of (transform b L k) = Returned ->
  let decomposed := state_of (eigendecomp b L (before_eigendecomp b k)) in
  Forall (fun x => exists s, x = S754_zero s)
         (take (Z.to_nat (num_eig k)) (eval_buf decomposed)) ->
  (i < Z.to_nat (num_eig k))%nat ->
  eval_buf (state_of (transform b L k)) !! i = Some S754_nan.
Proof.
  intros Hsz Hk Hb Hw Hret decomposed Hzeros Hi.
  rewrite transform_returned_normalized by assumption. fold decomposed.
  pose proof (before_eigendecomp_keeps b k) as (_ & _ & _ & Hn0 & Hk0 & _).
  pose proof (eigendecomp_keeps b L (before_eigendecomp b k))
    as (_ & _ & _ & Hn1 & Hk1 & _).
  pose proof (eigendecomp_sized b L _ (before_eigendecomp_sized b k Hsz)) as Hsz1.
  fold decomposed in Hn1, Hk1, Hsz1. cbv zeta in Hn0, Hk0.
  rewrite Hn0 in Hn1. rewrite Hk0 in Hk1.
  destruct Hsz1 as [_ _ _ Hle _ _ _ _ _ _ _ _].
  clearbody decomposed. rewrite <- Hk1 in *. rewrite <- Hn1 in *.
  change (eval_buf (project (normalize_evals decomposed)))
    with (eval_buf (normalize_evals decomposed)).
  refine (eq_trans (normalize_evals_spec decomposed i _ _) _); [lia | lia |].
  case_decide; [|lia].
  f_equal.
  destruct (largest_from_zero_of_zeros _ Hzeros) as [sm ->].
  assert (exists s, rd (eval_buf decomposed) (Z.of_nat i) = S754_zero s) as [sx ->].
  { rewrite Forall_lookup in Hzeros.
    destruct (lookup_lt_is_Some_2 (eval_buf decomposed) i) as [x Hx]; [lia|].
    unfold rd. rewrite Nat2Z.id, (list_lookup_total_correct _ _ _ Hx).
    apply (Hzeros i). rewrite lookup_take_lt by exact Hi. exact Hx. }
  destruct sx, sm; vm_compute; reflexivity.
Qed.

(** ** The driver's arguments *)

Lemma int_max_max (a b : Z) : int_max a b = Z.max a b.
Proof. unfold int_max. destruct (Z.ltb_spec a b); lia. Qed.

Lemma int_min_min (a b : Z) : int_min a b = Z.min a b.
Proof. unfold int_min. destruct (Z.ltb_spec b a); lia. Qed.

(** X13. Whatever integers the command line gives, the driver constructs
    the engine with [2 <= acm_order <= in_len] and [1 <= num_eig <=
    acm_order], so that the index range it asks of the selective search,
    [acm_order - num_eig + 1 .. acm_order], lies within [1 .. acm_order];
    arguments that satisfy these bounds already are passed on unchanged. *)
Theorem driver_arguments_are_valid `{Sc : Scalars}
    (picked_in_len picked_acm_order picked_num_eig : Z)
    (window eval_normalized : Z) (input : list cplx) (win : list real)
    (junk_r : real) (junk_c : cplx) (junk_i : Z) :
  let in_len := driver_in_len picked_in_len in
  let acm_order := driver_acm_order picked_in_len picked_acm_order in
  let num_eig := driver_num_eig picked_in_len picked_acm_order picked_num_eig in
  let k := object in_len window eval_normalized acm_order num_eig
                  input win junk_r junk_c junk_i in
  valid_config k
  /\ 1 <= il_of k <= iu_of k /\ iu_of k = acm_order
  /\ (2 <= picked_acm_order <= picked_in_len -> 1 <= picked_num_eig <= picked_acm_order ->
      in_len = picked_in_len /\ acm_order = picked_acm_order /\ num_eig = picked_num_eig).
Proof.
  cbv zeta. unfold valid_config, il_of, iu_of, object. klt_simpl.
  unfold driver_num_eig, driver_acm_order, driver_in_len.
  rewrite !int_max_max, !int_min_min. lia.
Qed.

(** ** Lengths below zero *)

Lemma bytes_of_negative (count elt : Z) :
  - 2 ^ 31 <= count < 0 -> 1 <= elt <= 8 ->
  bytes_of count elt = 2 ^ 64 + count * elt.
Proof.
  intros Hc He. unfold bytes_of, to_size_t.
  assert (count mod 2 ^ 64 = count + 2 ^ 64) as ->.
  { symmetry. apply Z.mod_unique with (q := -1); lia. }
  symmetry. apply Z.mod_unique with (q := elt - 1); nia.
Qed.

(** X14. A negative [in_len] is not rejected: converted to [size_t] it
    becomes a request of more than [2^63] bytes, so on a system that refuses
    requests of that size the constructor throws at its first allocation,
    the message showing the negative count, and the heap is as it was. *)
Theorem negative_length_fails_first_allocation
    (grant : list (nat * Z) -> Z -> Z -> bool) (b : Build)
    (in_len acm_order num_eig : Z) (h : heap) :
  (forall blocks alignment size, 2 ^ 63 <= size -> grant blocks alignment size = false) ->
  - 2 ^ 31 <= in_len < 0 ->
  bytes_of in_len sizeof_complex_float = 2 ^ 64 + 8 * in_len
  /\ KLT_new grant b in_len acm_order num_eig h
     = (Ctor_threw ("Failed to allocate in_buf (size " ++ dec in_len ++ ")"), h).
Proof.
  intros Hgrant Hneg.
  assert (bytes_of in_len sizeof_complex_float = 2 ^ 64 + 8 * in_len) as Hbytes.
  { rewrite bytes_of_negative by (unfold sizeof_complex_float; lia).
    unfold sizeof_complex_float. lia. }
  split; [exact Hbytes|].
  unfold KLT_new, alloc_or_throw, posix_memalign.
  rewrite Hgrant by (rewrite Hbytes; lia). reflexivity.
Qed.

Lemma negative_length_fails_first_allocation_witness :
  bytes_of (-1) sizeof_complex_float = 2 ^ 64 + 8 * (-1)
  /\ KLT_new (fun _ _ size => size <=? 1000) shipped (-1) 4 2 empty_heap
     = (Ctor_threw ("Failed to allocate in_buf (size " ++ dec (-1) ++ ")"), empty_heap).
Proof.
  apply (negative_length_fails_first_allocation (fun _ _ size => size <=? 1000)
           shipped (-1) 4 2 empty_heap); [|lia].
  intros blocks alignment size Hsize. apply Z.leb_gt. lia.
Defined.

(** ** Sample runs of the properties above *)

Lemma eigendecomp_message_identifies_failure_witness :
  "LAPACKE_cstein()"%string = "LAPACKE_cstein()"%string /\ 3 = 3.
Proof.
  apply (eigendecomp_message_identifies_failure "LAPACKE_cstein()" "LAPACKE_cstein()" 3 3).
  - simpl. tauto.
  - simpl. tauto.
  - reflexivity.
Defined.

Lemma constructor_message_identifies_request_witness :
  fst ("ac_buf"%string, 10, 80) = fst ("ac_buf"%string, 10, 80).
Proof.
  apply (constructor_message_identifies_request shipped with_window 8 4 2 9 4 2
           ("ac_buf"%string, 10, 80) ("ac_buf"%string, 10, 80)).
  - vm_compute. tauto.
  - vm_compute. tauto.
  - reflexivity.
Defined.

Lemma transform_windows_input_in_place_witness :
  in_buf (state_of (transform with_window (stand_in healthy) windowed_engine))
  = zip_with c_scale (in_buf windowed_engine) (win_buf windowed_engine).
Proof.
  destruct (transform_windows_input_in_place with_window (stand_in healthy)
              windowed_engine) as [H _].
  - constructor; reflexivity.
  - exact H.
Defined.

Lemma transform_failure_postcondition_witness :
  kltc_buf (state_of (transform shipped (stand_in healthy) (engine 1 0 7 window_nan)))
  = kltc_buf (engine 1 0 7 window_nan).
Proof.
  destruct (transform_failure_postcondition shipped (stand_in healthy)
              (engine 1 0 7 window_nan) "LAPACKE_chptrd() failed, info=-4")
    as (_ & _ & H & _).
  - apply engine_sized; [lia | reflexivity].
  - simpl. lia.
  - vm_compute. reflexivity.
  - exact H.
Defined.

Lemma acorr_matrix_leaves_no_stale_entry_witness :
  exists a : nat,
    Z.of_nat a < acm_order (engine 1 0 7 window_41) /\
    ac_buf (acorr_matrix (engine 1 0 7 window_41)) !! 2%nat
    = Some (lag_sum (in_len (engine 1 0 7 window_41))
                    (in_buf (engine 1 0 7 window_41)) (Z.of_nat a)).
Proof.
  destruct (acorr_matrix_leaves_no_stale_entry (engine 1 0 7 window_41) 2) as [_ H].
  - reflexivity.
  - simpl. lia.
  - simpl. lia.
  - exact H.
Defined.

Lemma acorr_matrix_beyond_input_is_zero_witness :
  ac_buf (acorr_matrix one_sample) !! Z.to_nat (packed_index (acm_order one_sample) 1 0)
  = Some c_zero.
Proof.
  destruct (acorr_matrix_beyond_input_is_zero one_sample) as [H _].
  - reflexivity.
  - simpl. lia.
  - apply (H 0 1); simpl; lia.
Defined.

Lemma normalizing_zero_spectrum_gives_nan_witness :
  eval_buf (state_of (transform with_evaln (stand_in healthy) (engine 2 1 7 silence)))
    !! 0%nat
  = Some S754_nan.
Proof.
  apply (normalizing_zero_spectrum_gives_nan with_evaln (stand_in healthy)
           (engine 2 1 7 silence) 0).
  - apply engine_sized; [lia | reflexivity].
  - simpl. lia.
  - reflexivity.
  - reflexivity.
  - vm_compute. reflexivity.
  - vm_compute. repeat constructor; eexists; reflexivity.
  - simpl. lia.
Defined.
